(** * JS-Swarm: the steering and force-aggregation engine of [swarming.js]

    A shallow embedding of the simulation core (Vector, Biod, Emitter,
    Predator, Flock) and the properties of it that the specification states.

    JavaScript numbers are modelled as real numbers: [Math.sqrt], [Math.cos],
    [Math.sin], [Math.log], [Math.min] and [Math.max] are [sqrt], [cos],
    [sin], [ln], [Rmin] and [Rmax]; rounding and overflow of IEEE doubles
    are outside the model, and so are NaN and the infinities, except that
    the two operations of [normalize] that produce them from finite
    operands, a division by zero and the root of a negative number, have
    [option]-valued variants ([Js.finiteDiv], [Js.finiteSqrt]) in which
    [None] stands for them.  Objects that the program mutates in
    place (a biod, its position, its heading) are records threaded through
    the functions that mutate them; an entry of the [flock] array is
    identified by its index. *)

From Stdlib Require Import Reals Lra Lia List ZArith Bool String.
Import ListNotations.
Open Scope R_scope.

(** ** Numbers *)

Module Js.

(** [a < b], [a <= b] as values of a condition. *)
Definition ltb (a b : R) : bool := if Rlt_dec a b then true else false.
Definition leb (a b : R) : bool := if Rle_dec a b then true else false.

(** [a == b] as the value of a condition. *)
Definition eqb (a b : R) : bool := if Req_dec_T a b then true else false.

(** Rounding toward zero. *)
Definition trunc (r : R) : Z :=
  if Rle_dec 0 r then Int_part r else (- Int_part (- r))%Z.

(** The remainder operator [a % b]: the result has the sign of [a]. *)
Definition rem (a b : R) : R := a - b * IZR (trunc (a / b)).

(** [a / b] and [Math.sqrt(a)] on finite operands, when the result is a
    finite number: [a / 0] is NaN or an infinity and the root of a negative
    number is NaN, for which [None] stands. *)
Definition finiteDiv (a b : R) : option R :=
  if Req_dec_T b 0 then None else Some (a / b).

Definition finiteSqrt (a : R) : option R :=
  if Rlt_dec a 0 then None else Some (sqrt a).

(** Assignment [l[i] = v] of an array entry that exists. *)
Fixpoint setAt {A : Type} (i : nat) (v : A) (l : list A) : list A :=
  match l, i with
  | [], _ => []
  | _ :: rest, O => v :: rest
  | a :: rest, S k => a :: setAt k v rest
  end.

End Js.

Module Math.

(** [Math.atan2(y, x)], the angle of the point [(x, y)] in [(-PI, PI]]. *)
Definition atan2 (y x : R) : R :=
  if Rlt_dec 0 x then atan (y / x)
  else if Rlt_dec x 0 then
    (if Rle_dec 0 y then atan (y / x) + PI else atan (y / x) - PI)
  else if Rlt_dec 0 y then PI / 2
  else if Rlt_dec y 0 then - (PI / 2)
  else 0.

End Math.

(** ** Vector class *)

Module Vector.

Record t : Type := mk { x : R; y : R }.

Definition radsToDegs : R := 57.2957795.
Definition degsToRads : R := 0.0174532925.

Definition clone (this : t) : t := mk (x this) (y this).

Definition toAngle (this : t) : R :=
  let angle := Math.atan2 (y this) (x this) in
  if Rlt_dec angle 0 then angle + 2 * PI else angle.

Definition toDegrees (this : t) : R := toAngle this * radsToDegs.

Definition length (this : t) : R :=
  sqrt (x this * x this + y this * y this).

Definition normalize (this : t) : t :=
  let len := length this in
  if Req_dec_T len 0 then this else mk (x this / len) (y this / len).

(** [length] and [normalize] once more, with the root and the two
    divisions tracked: [None] is a result that is NaN or has a NaN or
    infinite coordinate. *)
Definition finiteLength (this : t) : option R :=
  Js.finiteSqrt (x this * x this + y this * y this).

Definition finiteNormalize (this : t) : option t :=
  match finiteLength this with
  | None => None
  | Some len =>
      if Req_dec_T len 0 then Some this
      else match Js.finiteDiv (x this) len, Js.finiteDiv (y this) len with
           | Some x', Some y' => Some (mk x' y')
           | _, _ => None
           end
  end.

(** [fromAngle] and [fromDegrees] overwrite the receiver: the vector
    returned here is the receiver after the call. *)
Definition fromAngle (radians : R) : t := mk (cos radians) (sin radians).

Definition fromDegrees (degrees : R) : t := fromAngle (degrees * degsToRads).

Definition scale (this : t) (amount : R) : t :=
  mk (x this * amount) (y this * amount).

Definition getDistance (this point : t) : R :=
  sqrt ((x point - x this) ^ 2 + (y point - y this) ^ 2).

Definition getDirectionTo (this point : t) : t :=
  normalize (mk (x point - x this) (y point - y this)).

Definition add (this amount : t) : t :=
  mk (x this + x amount) (y this + y amount).

(** As written in the source: the second product is a sum. *)
Definition dot (this vector : t) : R :=
  x this * x vector + y this + y vector.

(** The receiver after [this.inplaceAdd(amount)]. *)
Definition inplaceAdd (this amount : t) : t :=
  mk (x this + x amount) (y this + y amount).

Definition zero : t := mk 0 0.

(** The point of the segment from [start] to [end_] that is closest to
    [this]; [end_] stands for the parameter [end] of the source. *)
Definition getClosestPointOnLine (this start end_ : t) : t :=
  let delta := mk (x end_ - x start) (y end_ - y start) in
  if Js.eqb (x delta) 0 && Js.eqb (y delta) 0 then start
  else
    let dist :=
      ((x this - x start) * x delta + (y this - y start) * y delta)
      / (x delta * x delta + y delta * y delta) in
    let dist := Rmin (Rmax 0 dist) 1 in
    mk (x start + dist * x delta) (y start + dist * y delta).

End Vector.

(** ** Biod class *)

Module Biod.

Record t : Type := mk {
  position : Vector.t;
  speed : R;
  turnSpeed : R;
  radius : R;
  proximityRadius : R;
  sightRadius : R;
  claustrophobicSeverity : R;
  sandboxDimensions : Vector.t;
  majorInfluence : option string;
  majorInfluenceStrength : option R;
  emitterInfluences : list Vector.t;
  heading : Vector.t
}.

(** The constructor. *)
Definition new (position : Vector.t)
    (speed turnSpeed radius proximityRadius sightRadius
     claustrophobicSeverity : R) (sandboxDimensions : Vector.t) : t :=
  mk position speed turnSpeed radius proximityRadius sightRadius
     claustrophobicSeverity sandboxDimensions None None [] (Vector.mk 1 0).

(** *** move *)

Definition left (newAngle currentAngle : R) : R :=
  Js.rem (newAngle - currentAngle + 360) 360.

Definition right (newAngle currentAngle : R) : R :=
  Js.rem (currentAngle - newAngle + 360) 360.

Definition rotationAmount (turnSpeed newAngle currentAngle : R) : R :=
  if Rlt_dec (left newAngle currentAngle) (right newAngle currentAngle)
  then Rmin turnSpeed (left newAngle currentAngle)
  else - Rmin turnSpeed (right newAngle currentAngle).

(** The angle handed to [this.heading.fromDegrees]. *)
Definition turnedAngle (this : t) (newHeading : Vector.t) : R :=
  let newAngle := Vector.toDegrees newHeading in
  let currentAngle := Vector.toDegrees (heading this) in
  Js.rem (currentAngle
          + rotationAmount (turnSpeed this) newAngle currentAngle + 360) 360.

(** One coordinate of the new position: the remainder, and the sandbox
    dimension itself when the remainder is negative. *)
Definition wrap (coordinate offset dimension : R) : R :=
  let moved := Js.rem (coordinate + offset) dimension in
  if Rlt_dec moved 0 then dimension else moved.

Definition move (this : t) (newHeading : Vector.t) : t :=
  let heading' := Vector.fromDegrees (turnedAngle this newHeading) in
  let positionOffset := Vector.scale heading' (speed this) in
  let position' :=
    Vector.mk
      (wrap (Vector.x (position this)) (Vector.x positionOffset)
            (Vector.x (sandboxDimensions this)))
      (wrap (Vector.y (position this)) (Vector.y positionOffset)
            (Vector.y (sandboxDimensions this))) in
  mk position' (speed this) (turnSpeed this) (radius this)
     (proximityRadius this) (sightRadius this)
     (claustrophobicSeverity this) (sandboxDimensions this)
     (majorInfluence this) (majorInfluenceStrength this)
     (emitterInfluences this) heading'.

(** *** calculateNewHeading *)

Definition cosDot (this other : t) : R :=
  cos (Vector.dot (heading this)
         (Vector.getDirectionTo (position this) (position other))).

(** The condition of the first loop for [flock[i]]; [self] is the index
    at which [this] sits in the flock, so [flock[i] != this] is
    [i <> self]. *)
Definition sees (this : t) (self i : nat) (other : t) : bool :=
  Js.leb (Vector.getDistance (position other) (position this))
         (sightRadius this)
  && negb (Nat.eqb i self)
  && Js.ltb 0 (cosDot this other).

(** The first loop, from index [i] on. *)
Fixpoint findNeighbors (this : t) (self i : nat) (flock : list t)
  : list t :=
  match flock with
  | [] => []
  | other :: rest =>
      if sees this self i other
      then other :: findNeighbors this self (S i) rest
      else findNeighbors this self (S i) rest
  end.

Definition neighbors (this : t) (self : nat) (flock : list t) : list t :=
  findNeighbors this self 0 flock.

(** The repulsion magnitude of one crowding neighbor. [proximityPoint] is
    the direction to the neighbor: the vector that
    [proximityPoint.scale(this.proximityRadius)] returns is dropped. *)
Definition crowdingForce (this neighbor : t) : R :=
  let proximityPoint :=
    Vector.getDirectionTo (position this) (position neighbor) in
  let dist := Vector.getDistance (position neighbor) proximityPoint in
  let force := dist * claustrophobicSeverity this in
  if Rlt_dec dist (radius this + radius this * 0.1)
  then force + 1000000 else force.

(** The variables of the second loop. *)
Record sums : Type := mkSums {
  claustrophobia : Vector.t;
  claustroCount : nat;
  avgHeading : Vector.t;
  avgPosition : Vector.t
}.

Definition noSums : sums := mkSums Vector.zero 0 Vector.zero Vector.zero.

Definition crowds (this neighbor : t) : bool :=
  Js.leb (Vector.getDistance (position neighbor) (position this))
         (proximityRadius this).

(** One pass of the second loop. *)
Definition addNeighbor (this : t) (s : sums) (neighbor : t) : sums :=
  let s' :=
    if crowds this neighbor
    then mkSums
           (Vector.add (claustrophobia s)
              (Vector.scale
                 (Vector.getDirectionTo (position neighbor) (position this))
                 (crowdingForce this neighbor)))
           (S (claustroCount s)) (avgHeading s) (avgPosition s)
    else s in
  mkSums (claustrophobia s') (claustroCount s')
         (Vector.inplaceAdd (avgHeading s') (heading neighbor))
         (Vector.inplaceAdd (avgPosition s') (position neighbor)).

(** [if (v.x != 0) v.x /= n; if (v.y != 0) v.y /= n]. *)
Definition divideNonZero (v : Vector.t) (n : nat) : Vector.t :=
  Vector.mk
    (if Req_dec_T (Vector.x v) 0 then Vector.x v else Vector.x v / INR n)
    (if Req_dec_T (Vector.y v) 0 then Vector.y v else Vector.y v / INR n).

(** The averaged repulsion. *)
Definition crowding (this : t) (neighbors : list t) : Vector.t :=
  let s := fold_left (addNeighbor this) neighbors noSums in
  divideNonZero (claustrophobia s) (claustroCount s).

(** The normalized heading of the neighbors. *)
Definition alignment (this : t) (neighbors : list t) : Vector.t :=
  Vector.normalize (avgHeading (fold_left (addNeighbor this) neighbors noSums)).

(** The direction to the average position of the neighbors. *)
Definition cohesion (this : t) (neighbors : list t) : Vector.t :=
  let s := fold_left (addNeighbor this) neighbors noSums in
  Vector.getDirectionTo (position this)
    (divideNonZero (avgPosition s) (List.length neighbors)).

(** The sum of the emitter influences. *)
Definition emitterSum (this : t) : Vector.t :=
  fold_left Vector.inplaceAdd (emitterInfluences this) Vector.zero.

(** [newHeading] after the three [inplaceAdd] calls that follow the
    diagnostic: the sum of all the forces. *)
Definition combined (this : t) (self : nat) (flock : list t) : Vector.t :=
  let ns := neighbors this self flock in
  Vector.inplaceAdd
    (Vector.inplaceAdd
       (Vector.inplaceAdd (emitterSum this) (alignment this ns))
       (crowding this ns))
    (cohesion this ns).

(** [newHeading] after the two divisions. *)
Definition averaged (this : t) (self : nat) (flock : list t) : Vector.t :=
  let v := combined this self flock in
  let n := 3 + INR (List.length (emitterInfluences this)) in
  Vector.mk (Vector.x v / n) (Vector.y v / n).

(** The dominant force and its strength. *)
Definition dominant (this : t) (self : nat) (flock : list t)
  : string * R :=
  let ns := neighbors this self flock in
  let claustroFactor := Vector.length (crowding this ns) in
  let cohesionFactor :=
    Vector.length (alignment this ns) + Vector.length (cohesion this ns) in
  let emitterFactor := Vector.length (emitterSum this) in
  if Js.leb cohesionFactor claustroFactor
     && Js.leb emitterFactor claustroFactor
  then ("claustrophobia"%string, claustroFactor)
  else if Js.leb emitterFactor cohesionFactor
  then ("cohesion"%string, cohesionFactor)
  else ("emitter"%string, emitterFactor).

(** The returned heading, and [this] after the call: the diagnostic is
    recorded and the list of influences is emptied. *)
Definition calculateNewHeading (this : t) (self : nat) (flock : list t)
  : Vector.t * t :=
  let newHeading := Vector.normalize (averaged this self flock) in
  let d := dominant this self flock in
  (newHeading,
   mk (position this) (speed this) (turnSpeed this) (radius this)
      (proximityRadius this) (sightRadius this)
      (claustrophobicSeverity this) (sandboxDimensions this)
      (Some (fst d)) (Some (snd d)) [] (heading this)).

End Biod.

(** ** Emitter class *)

Module Emitter.

Record t : Type := mk {
  position : Vector.t;
  strength : R;
  radius : R;
  functionType : string;
  repel : bool
}.

(** The [switch] on the function type; no case, no reduction. *)
Definition subAmount (this : t) (distance : R) : R :=
  if String.eqb (functionType this) "linear" then
    Rmin (strength this) distance
  else if String.eqb (functionType this) "log" then
    Rmax 0 (ln distance)
  else if String.eqb (functionType this) "exp" then
    Rmax 0 (distance * distance)
  else 0.

Definition influenceStrength (this : t) (distance : R) : R :=
  let s := strength this - subAmount this distance in
  if Rlt_dec s 0 then 0 else s.

(** The vector pushed onto a biod in range. *)
Definition influence (this : t) (b : Biod.t) : Vector.t :=
  let distance := Vector.getDistance (Biod.position b) (position this) in
  if repel this
  then Vector.scale (Vector.getDirectionTo (position this) (Biod.position b))
                    (influenceStrength this distance)
  else Vector.scale (Vector.getDirectionTo (Biod.position b) (position this))
                    (influenceStrength this distance).

Definition inRange (this : t) (b : Biod.t) : bool :=
  Js.leb (Vector.getDistance (Biod.position b) (position this)) (radius this).

(** [b.emitterInfluences.push(v)]. *)
Definition push (b : Biod.t) (v : Vector.t) : Biod.t :=
  Biod.mk (Biod.position b) (Biod.speed b) (Biod.turnSpeed b)
    (Biod.radius b) (Biod.proximityRadius b) (Biod.sightRadius b)
    (Biod.claustrophobicSeverity b) (Biod.sandboxDimensions b)
    (Biod.majorInfluence b) (Biod.majorInfluenceStrength b)
    (Biod.emitterInfluences b ++ [v]) (Biod.heading b).

(** The body of the loop for one biod. *)
Definition affect (this : t) (b : Biod.t) : Biod.t :=
  if inRange this b then push b (influence this b) else b.

(** The flock after [this.update(flock)]. *)
Fixpoint update (this : t) (flock : list Biod.t) : list Biod.t :=
  match flock with
  | [] => []
  | b :: rest => affect this b :: update this rest
  end.

End Emitter.

(** ** Predator class *)

Module Predator.

Record t : Type := mk {
  position : Vector.t;
  speed : R;
  turnSpeed : R;
  radius : R;
  sightRadius : R;
  scariness : R;
  presence : R;
  sandboxDimensions : Vector.t;
  emitter : Emitter.t;
  heading : Vector.t
}.

Definition new (position : Vector.t)
    (speed turnSpeed radius sightRadius scariness presence : R)
    (sandboxDimensions : Vector.t) : t :=
  mk position speed turnSpeed radius sightRadius scariness presence
     sandboxDimensions
     (Emitter.mk position scariness presence "exp" true)
     (Vector.mk 1 0).

(** *** calculateNewHeading *)

Definition cosDot (this : t) (b : Biod.t) : R :=
  cos (Vector.dot (heading this)
         (Vector.getDirectionTo (position this) (Biod.position b))).

(** One pass of the loop over [victim] and [distanceToVictim]. *)
Definition scan (this : t) (st : option Biod.t * R) (b : Biod.t)
  : option Biod.t * R :=
  if Rlt_dec (Vector.getDistance (Biod.position b) (position this)) (snd st)
  then
    if Rlt_dec 0 (cosDot this b)
    then (Some b, Vector.getDistance (Biod.position b) (position this))
    else st
  else st.

Definition findVictim (this : t) (flock : list Biod.t) : option Biod.t :=
  fst (fold_left (scan this) flock (None, sightRadius this + 1)).

Definition calculateNewHeading (this : t) (flock : list Biod.t) : Vector.t :=
  if Nat.eqb (List.length flock) 0 then heading this
  else
    match findVictim this flock with
    | Some victim =>
        Vector.getDirectionTo (position this) (Biod.position victim)
    | None => heading this
    end.

(** *** move *)

Definition left (newAngle currentAngle : R) : R :=
  Js.rem (newAngle - currentAngle + 360) 360.

Definition right (newAngle currentAngle : R) : R :=
  Js.rem (currentAngle - newAngle + 360) 360.

Definition rotationAmount (turnSpeed newAngle currentAngle : R) : R :=
  if Rlt_dec (left newAngle currentAngle) (right newAngle currentAngle)
  then Rmin turnSpeed (left newAngle currentAngle)
  else - Rmin turnSpeed (right newAngle currentAngle).

Definition turnedAngle (this : t) (newHeading : Vector.t) : R :=
  let newAngle := Vector.toDegrees newHeading in
  let currentAngle := Vector.toDegrees (heading this) in
  Js.rem (currentAngle
          + rotationAmount (turnSpeed this) newAngle currentAngle + 360) 360.

Definition wrap (coordinate offset dimension : R) : R :=
  let moved := Js.rem (coordinate + offset) dimension in
  if Rlt_dec moved 0 then dimension else moved.

(** The predator after the turn and the step; its emitter sits on the
    position object of the predator and follows it. *)
Definition step (this : t) (newHeading : Vector.t) : t :=
  let heading' := Vector.fromDegrees (turnedAngle this newHeading) in
  let positionOffset := Vector.scale heading' (speed this) in
  let position' :=
    Vector.mk
      (wrap (Vector.x (position this)) (Vector.x positionOffset)
            (Vector.x (sandboxDimensions this)))
      (wrap (Vector.y (position this)) (Vector.y positionOffset)
            (Vector.y (sandboxDimensions this))) in
  mk position' (speed this) (turnSpeed this) (radius this)
     (sightRadius this) (scariness this) (presence this)
     (sandboxDimensions this)
     (Emitter.mk position' (Emitter.strength (emitter this))
        (Emitter.radius (emitter this))
        (Emitter.functionType (emitter this))
        (Emitter.repel (emitter this)))
     heading'.

(** The predator and the flock after [this.move(newHeading, flock)]. *)
Definition move (this : t) (newHeading : Vector.t) (flock : list Biod.t)
  : t * list Biod.t :=
  let this' := step this newHeading in
  (this', Emitter.update (emitter this') flock).

End Predator.

(** ** Flock class *)

Module Flock.

(** The simulation state of a flock; the SVG bodies are left out. *)
Record t : Type := mk {
  flock : list Biod.t;
  emitters : list Emitter.t;
  predators : list Predator.t
}.

(** The globals that [update] reads: [g_mouseEmitter], [g_mouseIsDown]
    and whether key 16 (shift) is in [g_keysDown]. *)
Record mouse : Type := mkMouse {
  mouseEmitter : option Emitter.t;
  mouseIsDown : bool;
  shiftIsDown : bool
}.

(** *** Kill off biods that have been eaten *)

(** The condition of the inner loop. *)
Definition bites (p : Predator.t) (b : Biod.t) : bool :=
  Js.ltb (Vector.getDistance (Biod.position b) (Predator.position p))
         (Rmax (Biod.radius b) (Predator.radius p)).

(** The inner loop: is some predator on the biod? *)
Fixpoint isDead (b : Biod.t) (predators : list Predator.t) : bool :=
  match predators with
  | [] => false
  | p :: rest => if bites p b then true else isDead b rest
  end.

(** The outer loop: the first dead biod is spliced out and the loop is
    left. *)
Fixpoint killEaten (flock : list Biod.t) (predators : list Predator.t)
  : list Biod.t :=
  match flock with
  | [] => []
  | b :: rest =>
      if isDead b predators then rest else b :: killEaten rest predators
  end.

(** *** Update emitters *)

Fixpoint updateEmitters (emitters : list Emitter.t) (flock : list Biod.t)
  : list Biod.t :=
  match emitters with
  | [] => flock
  | e :: rest => updateEmitters rest (Emitter.update e flock)
  end.

Definition updateMouse (m : mouse) (flock : list Biod.t) : list Biod.t :=
  match mouseEmitter m with
  | Some e =>
      if mouseIsDown m
      then Emitter.update
             (Emitter.mk (Emitter.position e) (Emitter.strength e)
                (Emitter.radius e) (Emitter.functionType e)
                (shiftIsDown m))
             flock
      else flock
  | None => flock
  end.

(** *** Update predators *)

(** The first predator loop. *)
Fixpoint newPredHeadings (predators : list Predator.t)
    (flock : list Biod.t) : list Vector.t :=
  match predators with
  | [] => []
  | p :: rest =>
      Predator.calculateNewHeading p flock :: newPredHeadings rest flock
  end.

(** The second predator loop. *)
Fixpoint movePredators (predators : list Predator.t)
    (headings : list Vector.t) (flock : list Biod.t)
  : list Predator.t * list Biod.t :=
  match predators, headings with
  | p :: rest, h :: hs =>
      let (p', flock') := Predator.move p h flock in
      let (rest', flock'') := movePredators rest hs flock' in
      (p' :: rest', flock'')
  | _, _ => (predators, flock)
  end.

(** *** Update biods *)

(** The first biod loop from index [i] on, [todo] passes left: each pass
    computes a heading and leaves the biod it was computed for changed. *)
Fixpoint headingsFrom (todo i : nat) (flock : list Biod.t)
  : list Vector.t * list Biod.t :=
  match todo with
  | O => ([], flock)
  | S k =>
      match nth_error flock i with
      | None => ([], flock)
      | Some b =>
          let (h, b') := Biod.calculateNewHeading b i flock in
          let (hs, flock') := headingsFrom k (S i) (Js.setAt i b' flock) in
          (h :: hs, flock')
      end
  end.

Definition newHeadings (flock : list Biod.t)
  : list Vector.t * list Biod.t :=
  headingsFrom (List.length flock) 0 flock.

(** The second biod loop. *)
Fixpoint moveBiods (flock : list Biod.t) (headings : list Vector.t)
  : list Biod.t :=
  match flock, headings with
  | b :: rest, h :: hs => Biod.move b h :: moveBiods rest hs
  | _, _ => flock
  end.

(** *** addBiod, addPredator, addEmitter *)

Definition addBiod (this : t) (biod : Biod.t) : t :=
  mk (flock this ++ [biod]) (emitters this) (predators this).

Definition addPredator (this : t) (predator : Predator.t) : t :=
  mk (flock this) (emitters this) (predators this ++ [predator]).

Definition addEmitter (this : t) (emitter : Emitter.t) : t :=
  mk (flock this) (emitters this ++ [emitter]) (predators this).

(** *** update, from "Update sim." on *)

Definition update (m : mouse) (this : t) : t :=
  let flock1 := killEaten (flock this) (predators this) in
  let flock2 := updateEmitters (emitters this) flock1 in
  let flock3 := updateMouse m flock2 in
  let predHeadings := newPredHeadings (predators this) flock3 in
  let (predators', flock4) :=
    movePredators (predators this) predHeadings flock3 in
  let (headings, flock5) := newHeadings flock4 in
  mk (moveBiods flock5 headings) (emitters this) predators'.

End Flock.

(** ** The globals, the handlers and the simulation step

    The state of the page: the global variables of the source, and [draws],
    the number of calls of [Math.random] made so far; the value of call
    number [n] is [random n]. *)

Module Sim.

Record t : Type := mk {
  g_flock : Flock.t;
  g_mouseEmitter : option Emitter.t;
  g_mouseIsDown : bool;
  g_keysDown : list nat;
  g_pIsPressed : bool;
  g_kIsPressed : bool;
  g_lIsPressed : bool;
  g_bIsPressed : bool;
  g_rIsPressed : bool;
  g_mouseVec : Vector.t;
  draws : nat
}.

(** [BoundedRandom(min, max)], with [random] the value of [Math.random()]. *)
Definition BoundedRandom (random min max : R) : R :=
  random * (max - min) + min.

(** [code in g_keysDown], [g_keysDown[code] = true] and
    [delete g_keysDown[code]]. *)
Definition isDown (code : nat) (keys : list nat) : bool :=
  existsb (Nat.eqb code) keys.

Definition keydown (code : nat) (w : t) : t :=
  mk (g_flock w) (g_mouseEmitter w) (g_mouseIsDown w)
     (code :: g_keysDown w)
     (g_pIsPressed w) (g_kIsPressed w) (g_lIsPressed w) (g_bIsPressed w)
     (g_rIsPressed w) (g_mouseVec w) (draws w).

Definition keyup (code : nat) (w : t) : t :=
  mk (g_flock w) (g_mouseEmitter w) (g_mouseIsDown w)
     (filter (fun k => negb (Nat.eqb code k)) (g_keysDown w))
     (g_pIsPressed w) (g_kIsPressed w) (g_lIsPressed w) (g_bIsPressed w)
     (g_rIsPressed w) (g_mouseVec w) (draws w).

(** The mouse handlers, for an event at [(ex, ey)]. *)
Definition runFromTheMouse (ex ey : R) (w : t) : t :=
  mk (g_flock w)
     (Some (Emitter.mk (Vector.mk ex ey) 4000 200 "linear" true))
     true (g_keysDown w)
     (g_pIsPressed w) (g_kIsPressed w) (g_lIsPressed w) (g_bIsPressed w)
     (g_rIsPressed w) (g_mouseVec w) (draws w).

Definition stopRunFromTheMouse (w : t) : t :=
  mk (g_flock w) (g_mouseEmitter w) false (g_keysDown w)
     (g_pIsPressed w) (g_kIsPressed w) (g_lIsPressed w) (g_bIsPressed w)
     (g_rIsPressed w) (g_mouseVec w) (draws w).

Definition updateRunningFromTheMouse (ex ey : R) (w : t) : t :=
  mk (g_flock w)
     (if g_mouseIsDown w then
        match g_mouseEmitter w with
        | Some e =>
            Some (Emitter.mk (Vector.mk ex ey) (Emitter.strength e)
                    (Emitter.radius e) (Emitter.functionType e)
                    (Emitter.repel e))
        | None => None
        end
      else g_mouseEmitter w)
     (g_mouseIsDown w) (g_keysDown w)
     (g_pIsPressed w) (g_kIsPressed w) (g_lIsPressed w) (g_bIsPressed w)
     (g_rIsPressed w) (Vector.mk ex ey) (draws w).

(** The loop of [resetSim]: [todo] more biods at random places. *)
Fixpoint addBiods (random : nat -> R) (todo : nat) (draws : nat)
    (flock : Flock.t) : Flock.t * nat :=
  match todo with
  | O => (flock, draws)
  | S k =>
      let newBiod :=
        Biod.new
          (Vector.mk (BoundedRandom (random draws) 0 800)
                     (BoundedRandom (random (S draws)) 0 600))
          3 10 7 40 200 20 (Vector.mk 800 600) in
      addBiods random k (S (S draws)) (Flock.addBiod flock newBiod)
  end.

Definition resetSim (random : nat -> R) (w : t) : t :=
  let (flock, draws') :=
    addBiods random 50 (draws w) (Flock.mk [] [] []) in
  mk flock (g_mouseEmitter w) (g_mouseIsDown w) (g_keysDown w)
     (g_pIsPressed w) (g_kIsPressed w) (g_lIsPressed w) (g_bIsPressed w)
     (g_rIsPressed w) (g_mouseVec w) draws'.

(** *** Flock.prototype.update, "Handle user input." *)

(** Key 80, p: a predator at a random point. *)
Definition keyP (random : nat -> R) (w : t) : t :=
  if isDown 80 (g_keysDown w) then
    if g_pIsPressed w then w
    else
      let newPredator :=
        Predator.new
          (Vector.mk (BoundedRandom (random (draws w)) 0 800)
                     (BoundedRandom (random (S (draws w))) 0 600))
          10 12 10 200 40000 200 (Vector.mk 800 600) in
      mk (Flock.addPredator (g_flock w) newPredator)
         (g_mouseEmitter w) (g_mouseIsDown w) (g_keysDown w)
         true (g_kIsPressed w) (g_lIsPressed w) (g_bIsPressed w)
         (g_rIsPressed w) (g_mouseVec w) (S (S (draws w)))
  else
    mk (g_flock w) (g_mouseEmitter w) (g_mouseIsDown w) (g_keysDown w)
       false (g_kIsPressed w) (g_lIsPressed w) (g_bIsPressed w)
       (g_rIsPressed w) (g_mouseVec w) (draws w).

(** Key 75, k: an attractive emitter at the mouse. *)
Definition keyK (random : nat -> R) (w : t) : t :=
  if isDown 75 (g_keysDown w) then
    if g_kIsPressed w then w
    else
      let newEmitter :=
        Emitter.mk (g_mouseVec w)
          (BoundedRandom (random (draws w)) 3000 6000)
          (BoundedRandom (random (S (draws w))) 25 150) "linear" false in
      mk (Flock.addEmitter (g_flock w) newEmitter)
         (g_mouseEmitter w) (g_mouseIsDown w) (g_keysDown w)
         (g_pIsPressed w) true (g_lIsPressed w) (g_bIsPressed w)
         (g_rIsPressed w) (g_mouseVec w) (S (S (draws w)))
  else
    mk (g_flock w) (g_mouseEmitter w) (g_mouseIsDown w) (g_keysDown w)
       (g_pIsPressed w) false (g_lIsPressed w) (g_bIsPressed w)
       (g_rIsPressed w) (g_mouseVec w) (draws w).

(** Key 76, l: a repulsive emitter at the mouse. *)
Definition keyL (random : nat -> R) (w : t) : t :=
  if isDown 76 (g_keysDown w) then
    if g_lIsPressed w then w
    else
      let newEmitter :=
        Emitter.mk (g_mouseVec w)
          (BoundedRandom (random (draws w)) 1000 4000)
          (BoundedRandom (random (S (draws w))) 25 150) "linear" true in
      mk (Flock.addEmitter (g_flock w) newEmitter)
         (g_mouseEmitter w) (g_mouseIsDown w) (g_keysDown w)
         (g_pIsPressed w) (g_kIsPressed w) true (g_bIsPressed w)
         (g_rIsPressed w) (g_mouseVec w) (S (S (draws w)))
  else
    mk (g_flock w) (g_mouseEmitter w) (g_mouseIsDown w) (g_keysDown w)
       (g_pIsPressed w) (g_kIsPressed w) false (g_bIsPressed w)
       (g_rIsPressed w) (g_mouseVec w) (draws w).

(** Key 66, b: a biod near the mouse. *)
Definition keyB (random : nat -> R) (w : t) : t :=
  if isDown 66 (g_keysDown w) then
    if g_bIsPressed w then w
    else
      let newBiod :=
        Biod.new
          (Vector.add (g_mouseVec w)
             (Vector.mk (BoundedRandom (random (draws w)) (-10) 10)
                        (BoundedRandom (random (S (draws w))) (-10) 10)))
          3 10 7 40 200 20 (Vector.mk 800 600) in
      mk (Flock.addBiod (g_flock w) newBiod)
         (g_mouseEmitter w) (g_mouseIsDown w) (g_keysDown w)
         (g_pIsPressed w) (g_kIsPressed w) (g_lIsPressed w) true
         (g_rIsPressed w) (g_mouseVec w) (S (S (draws w)))
  else
    mk (g_flock w) (g_mouseEmitter w) (g_mouseIsDown w) (g_keysDown w)
       (g_pIsPressed w) (g_kIsPressed w) (g_lIsPressed w) false
       (g_rIsPressed w) (g_mouseVec w) (draws w).

(** Does key 82, r, reset the simulation in this step? *)
Definition resets (w : t) : bool :=
  isDown 82 (g_keysDown w) && negb (g_rIsPressed w).

(** Key 82, r: [resetSim] puts a new flock into [g_flock]. *)
Definition keyR (random : nat -> R) (w : t) : t :=
  if isDown 82 (g_keysDown w) then
    if g_rIsPressed w then w
    else
      let w' := resetSim random w in
      mk (g_flock w') (g_mouseEmitter w') (g_mouseIsDown w') (g_keysDown w')
         (g_pIsPressed w') (g_kIsPressed w') (g_lIsPressed w')
         (g_bIsPressed w') true (g_mouseVec w') (draws w')
  else
    mk (g_flock w) (g_mouseEmitter w) (g_mouseIsDown w) (g_keysDown w)
       (g_pIsPressed w) (g_kIsPressed w) (g_lIsPressed w) (g_bIsPressed w)
       false (g_mouseVec w) (draws w).

(** [g_mouseEmitter] after the step: a pressed mouse gets its [repel] from
    the shift key, 16. *)
Definition mouseAfter (w : t) : option Emitter.t :=
  match g_mouseEmitter w with
  | Some e =>
      if g_mouseIsDown w
      then Some (Emitter.mk (Emitter.position e) (Emitter.strength e)
                   (Emitter.radius e) (Emitter.functionType e)
                   (isDown 16 (g_keysDown w)))
      else Some e
  | None => None
  end.

(** [runSimulation]: [g_flock.update()].  The keys are handled on the
    global flock; the rest of [update] runs on [this], the flock that was
    global when the call began, so after a reset it runs on the flock that
    has been replaced and leaves the new one as [resetSim] made it. *)
Definition runSimulation (random : nat -> R) (w : t) : t :=
  let w4 := keyB random (keyL random (keyK random (keyP random w))) in
  let w5 := keyR random w4 in
  let m :=
    Flock.mkMouse (g_mouseEmitter w5) (g_mouseIsDown w5)
      (isDown 16 (g_keysDown w5)) in
  mk (if resets w4 then g_flock w5 else Flock.update m (g_flock w4))
     (mouseAfter w5) (g_mouseIsDown w5) (g_keysDown w5)
     (g_pIsPressed w5) (g_kIsPressed w5) (g_lIsPressed w5) (g_bIsPressed w5)
     (g_rIsPressed w5) (g_mouseVec w5) (draws w5).

End Sim.

(** ** Notions of the specification *)

Module Spec.

(** The arc, in degrees, that leads from angle [a] counter-clockwise to
    angle [b]. *)
Definition arc (a b : R) : R := Js.rem (b - a + 360) 360.

(** The angular difference of two angles in degrees, with the wrap at
    0/360: the shorter of the two arcs between them. *)
Definition angularDifference (a b : R) : R := Rmin (arc a b) (arc b a).

(** The repulsion magnitude as the specification words it: the radial
    point lies at distance [proximityRadius] from the agent toward the
    neighbor, and the penalty applies to a neighbor closer than
    [bodyRadius * 1.1]. *)
Definition radialPoint (this neighbor : Biod.t) : Vector.t :=
  Vector.add
    (Vector.scale
       (Vector.getDirectionTo (Biod.position this) (Biod.position neighbor))
       (Biod.proximityRadius this))
    (Biod.position this).

Definition crowdingForce (this neighbor : Biod.t) : R :=
  let force :=
    Vector.getDistance (Biod.position neighbor) (radialPoint this neighbor)
    * Biod.claustrophobicSeverity this in
  if Rlt_dec
       (Vector.getDistance (Biod.position neighbor) (Biod.position this))
       (Biod.radius this * 1.1)
  then force + 1000000 else force.

(** The kinds of falloff, the name each has as a [functionType] of the
    source, and the falloff amount of each. *)
Inductive falloff : Type := Linear | Logarithmic | Quadratic.

Definition functionType (kind : falloff) : string :=
  match kind with
  | Linear => "linear"
  | Logarithmic => "log"
  | Quadratic => "exp"
  end.

Definition falloffAmount (kind : falloff) (strength distance : R) : R :=
  match kind with
  | Linear => Rmin strength distance
  | Logarithmic => Rmax 0 (ln distance)
  | Quadratic => Rmax 0 (distance ^ 2)
  end.

(** The headings of a flock, each computed from the flock as it is. *)
Definition snapshotHeading (flock : list Biod.t) (i : nat) : Vector.t :=
  match nth_error flock i with
  | Some b => fst (Biod.calculateNewHeading b i flock)
  | None => Vector.zero
  end.

Definition snapshotHeadings (flock : list Biod.t) : list Vector.t :=
  map (snapshotHeading flock) (seq 0 (List.length flock)).

(** Two biods at one position with one heading. *)
Definition sameKinematics (b1 b2 : Biod.t) : Prop :=
  Biod.position b1 = Biod.position b2 /\ Biod.heading b1 = Biod.heading b2.



(** How a coordinate [r] comes from the sum [s] of the old coordinate and
    the step in a sandbox of dimension [d]: kept inside the sandbox, carried
    over the far edge with what exceeds it, and put on the far edge when
    the sum is negative. *)
Definition wrapped (s d r : R) : Prop :=
  (0 <= s < d -> r = s)
  /\ (d <= s < 2 * d -> r = s - d)
  /\ (- d < s < 0 -> r = d).

(** A biod as [resetSim] makes it: inside the sandbox of 800 by 600, with
    the parameters of the source, heading east, with no influences. *)
Definition fresh (b : Biod.t) : Prop :=
  0 <= Vector.x (Biod.position b) < 800
  /\ 0 <= Vector.y (Biod.position b) < 600
  /\ b = Biod.new (Biod.position b) 3 10 7 40 200 20 (Vector.mk 800 600).

(** Does the key fire in this step: is it down, and was it not down at the
    step before? *)
Definition fires (code : nat) (wasPressed : bool) (w : Sim.t) : bool :=
  Sim.isDown code (Sim.g_keysDown w) && negb wasPressed.

Definition count (fired : bool) : nat := if fired then 1%nat else 0%nat.

(** What the handling of the keys p, k, l and b leaves as it is. *)
Definition untouched (w w' : Sim.t) : Prop :=
  Sim.g_keysDown w' = Sim.g_keysDown w
  /\ Sim.g_rIsPressed w' = Sim.g_rIsPressed w
  /\ Sim.g_mouseEmitter w' = Sim.g_mouseEmitter w
  /\ Sim.g_mouseIsDown w' = Sim.g_mouseIsDown w.

(** A biod without emitter influences. *)
Definition emptied (b : Biod.t) : Prop := Biod.emitterInfluences b = [].

(** The dot product of two vectors. *)
Definition dotProduct (u v : Vector.t) : R :=
  Vector.x u * Vector.x v + Vector.y u * Vector.y v.

End Spec.

(** ** Sample entities

    Biods and predators with the parameters that [resetSim] and the key
    handlers of the source give them. *)

Definition sandbox : Vector.t := Vector.mk 800 600.

Definition biodAt (px py : R) : Biod.t :=
  Biod.new (Vector.mk px py) 3 10 7 40 200 20 sandbox.

Definition predatorAt (px py : R) : Predator.t :=
  Predator.new (Vector.mk px py) 10 12 10 200 40000 200 sandbox.

(** A biod as [biodAt] makes it, with another heading. *)
Definition heads (b : Biod.t) (h : Vector.t) : Biod.t :=
  Biod.mk (Biod.position b) (Biod.speed b) (Biod.turnSpeed b)
    (Biod.radius b) (Biod.proximityRadius b) (Biod.sightRadius b)
    (Biod.claustrophobicSeverity b) (Biod.sandboxDimensions b)
    (Biod.majorInfluence b) (Biod.majorInfluenceStrength b)
    (Biod.emitterInfluences b) h.

(** * Properties *)

(** ** Arithmetic of the remainder operator *)

Section Remainder.

Lemma trunc_nonneg (r : R) :
  0 <= r -> IZR (Js.trunc r) <= r < IZR (Js.trunc r) + 1.
Proof.
  intros Hr. unfold Js.trunc.
  destruct (Rle_dec 0 r) as [_ | Hn]; [| contradiction].
  destruct (base_Int_part r) as [Hlo Hhi]. lra.
Qed.

Lemma trunc_neg (r : R) :
  r < 0 -> r <= IZR (Js.trunc r) < r + 1.
Proof.
  intros Hr. unfold Js.trunc.
  destruct (Rle_dec 0 r) as [Hp | _]; [lra |].
  destruct (base_Int_part (- r)) as [Hlo Hhi].
  rewrite opp_IZR. lra.
Qed.

Lemma trunc_unique (r : R) (k : Z) :
  0 <= r -> IZR k <= r < IZR k + 1 -> Js.trunc r = k.
Proof.
  intros Hr Hk. unfold Js.trunc.
  destruct (Rle_dec 0 r) as [_ | Hn]; [| contradiction].
  symmetry. apply Int_part_spec. lra.
Qed.

Lemma trunc_small_neg (r : R) : -1 < r < 0 -> Js.trunc r = 0%Z.
Proof.
  intros Hr. unfold Js.trunc.
  destruct (Rle_dec 0 r) as [Hp | _]; [lra |].
  assert (H : 0%Z = Int_part (- r)) by (apply Int_part_spec; simpl; lra).
  rewrite <- H. reflexivity.
Qed.

Lemma rem_factor (a b : R) :
  b <> 0 -> Js.rem a b = b * (a / b - IZR (Js.trunc (a / b))).
Proof. intros Hb. unfold Js.rem. field. exact Hb. Qed.

(** A non-negative dividend leaves a remainder in [[0, b)]. *)
Lemma rem_nonneg (a b : R) :
  0 < b -> 0 <= a ->
  0 <= Js.rem a b < b /\ exists k : Z, Js.rem a b = a - b * IZR k.
Proof.
  intros Hb Ha.
  assert (Hq : 0 <= a / b) by (apply Rle_mult_inv_pos; assumption).
  pose proof (trunc_nonneg _ Hq) as Ht.
  split; [| exists (Js.trunc (a / b)); reflexivity].
  rewrite rem_factor by lra. split; nra.
Qed.

(** The remainder is always strictly inside [(-b, b)]. *)
Lemma rem_bound (a b : R) : 0 < b -> - b < Js.rem a b < b.
Proof.
  intros Hb. rewrite rem_factor by lra.
  destruct (Rle_dec 0 (a / b)) as [Hq | Hq].
  - pose proof (trunc_nonneg _ Hq). split; nra.
  - assert (Hq' : a / b < 0) by lra.
    pose proof (trunc_neg _ Hq'). split; nra.
Qed.

Lemma rem_small (a b : R) : 0 <= a < b -> Js.rem a b = a.
Proof.
  intros [Ha Hab]. unfold Js.rem.
  assert (Hb : 0 < b) by lra.
  assert (Hq : 0 <= a / b) by (apply Rle_mult_inv_pos; assumption).
  assert (Hq1 : a / b < 1).
  { apply Rmult_lt_reg_r with b; [exact Hb |].
    unfold Rdiv. rewrite Rmult_assoc, Rinv_l by lra. lra. }
  rewrite (trunc_unique (a / b) 0 Hq) by (simpl; lra).
  simpl. ring.
Qed.

Lemma rem_small_neg (a b : R) : - b < a < 0 -> Js.rem a b = a.
Proof.
  intros [Hab Ha]. unfold Js.rem.
  assert (Hb : 0 < b) by lra.
  assert (Hq : -1 < a / b < 0).
  { split.
    - apply Rmult_lt_reg_r with b; [exact Hb |].
      unfold Rdiv. rewrite Rmult_assoc, Rinv_l by lra. lra.
    - apply Rmult_lt_reg_r with b; [exact Hb |].
      unfold Rdiv. rewrite Rmult_assoc, Rinv_l by lra. lra. }
  rewrite (trunc_small_neg _ Hq). simpl. ring.
Qed.

(** Two remainders in [[0, b)] that differ by a multiple of [b] agree. *)
Lemma rem_unique (u v b : R) (k : Z) :
  0 < b -> 0 <= u < b -> 0 <= v < b -> u = v - b * IZR k -> u = v.
Proof.
  intros Hb Hu Hv E.
  assert (Hk : (-1 < k < 1)%Z).
  { split; apply lt_IZR; simpl; nra. }
  assert (k = 0%Z) by lia. subst k. simpl in E. lra.
Qed.

(** The remainder of a number that is not negative is at most any number
    that is not negative and differs from it by a multiple of the
    divisor. *)
Lemma rem_le (a r b : R) (j : Z) :
  0 < b -> 0 <= a -> 0 <= r -> a - r = b * IZR j -> Js.rem a b <= r.
Proof.
  intros Hb Ha Hr E.
  destruct (rem_nonneg a b Hb Ha) as [Hu [k Hk]].
  destruct (Rlt_dec r b) as [H | H]; [| lra].
  right. apply (rem_unique _ _ b (k - j)); [exact Hb | exact Hu | lra |].
  rewrite minus_IZR. lra.
Qed.

End Remainder.

(** ** Bounds on PI and the range of angles *)

Section Angles.

Lemma PI_bounds : 3.1415926535 < PI < 3.1415926540.
Proof.
  pose proof (PI_2_3_7_ineq 5) as [Hlo Hhi].
  unfold sum_f_R0, tg_alt, PI_2_3_7_tg, Ratan_seq in Hlo, Hhi.
  simpl in Hlo, Hhi. split; lra.
Qed.

Lemma atan2_range (b a : R) : - PI < Math.atan2 b a <= PI.
Proof.
  pose proof PI_bounds as HPI.
  unfold Math.atan2.
  destruct (Rlt_dec 0 a) as [Ha | Ha].
  - pose proof (atan_bound (b / a)). lra.
  - destruct (Rlt_dec a 0) as [Ha' | Ha'].
    + pose proof (atan_bound (b / a)) as Hb.
      destruct (Rle_dec 0 b) as [Hb0 | Hb0].
      * assert (Hq : b / a <= 0).
        { pose proof (Rinv_lt_0_compat a Ha') as Hi.
          unfold Rdiv. nra. }
        assert (atan (b / a) <= 0).
        { destruct Hq as [Hq | Hq].
          - apply Rlt_le. rewrite <- atan_0. apply atan_increasing. exact Hq.
          - rewrite Hq, atan_0. lra. }
        lra.
      * assert (Hq : 0 < b / a).
        { replace (b / a) with ((- b) * / (- a)) by (field; lra).
          apply Rmult_lt_0_compat; [lra |].
          apply Rinv_0_lt_compat. lra. }
        assert (0 < atan (b / a)).
        { rewrite <- atan_0. apply atan_increasing. exact Hq. }
        lra.
    + destruct (Rlt_dec 0 b); [lra |].
      destruct (Rlt_dec b 0); lra.
Qed.

Lemma toAngle_range (v : Vector.t) : 0 <= Vector.toAngle v < 2 * PI.
Proof.
  pose proof PI_bounds as HPI.
  unfold Vector.toAngle.
  pose proof (atan2_range (Vector.y v) (Vector.x v)) as H.
  destruct (Rlt_dec _ 0); lra.
Qed.

(** A heading angle in degrees lies in [[0, 360)]. *)
Lemma toDegrees_range (v : Vector.t) : 0 <= Vector.toDegrees v < 360.
Proof.
  pose proof PI_bounds as HPI.
  pose proof (toAngle_range v) as H.
  unfold Vector.toDegrees, Vector.radsToDegs. split; nra.
Qed.

End Angles.

(** ** From an angle to a vector and back *)

Section RoundTrip.

Lemma toAngle_first_quadrant (a : R) :
  - (PI / 2) < a < PI / 2 ->
  Math.atan2 (sin a) (cos a) = a.
Proof.
  intros Ha. unfold Math.atan2.
  assert (Hc : 0 < cos a) by (apply cos_gt_0; lra).
  destruct (Rlt_dec 0 (cos a)) as [_ | H]; [| contradiction].
  apply (atan_tan a Ha).
Qed.

Lemma atan2_shifted (a : R) :
  - (PI / 2) < a < PI / 2 ->
  Math.atan2 (sin (a + PI)) (cos (a + PI)) = a + PI
  \/ Math.atan2 (sin (a + PI)) (cos (a + PI)) = a - PI.
Proof.
  intros Ha. unfold Math.atan2. rewrite neg_sin, neg_cos.
  assert (Hc : 0 < cos a) by (apply cos_gt_0; lra).
  destruct (Rlt_dec 0 (- cos a)) as [H | _]; [lra |].
  destruct (Rlt_dec (- cos a) 0) as [_ | H]; [| lra].
  replace (- sin a / - cos a) with (tan a) by (unfold tan; field; lra).
  rewrite (atan_tan a Ha).
  destruct (Rle_dec 0 (- sin a)); [left | right]; reflexivity.
Qed.

Lemma toAngle_fromAngle (radians : R) :
  0 <= radians < 2 * PI ->
  Vector.toAngle (Vector.fromAngle radians) = radians.
Proof.
  intros Hr. pose proof PI_bounds as HPI.
  unfold Vector.toAngle, Vector.fromAngle. simpl.
  destruct (Rlt_dec radians (PI / 2)) as [H1 | H1].
  { rewrite toAngle_first_quadrant by lra.
    destruct (Rlt_dec radians 0); lra. }
  destruct (Req_dec_T radians (PI / 2)) as [E1 | N1].
  { rewrite E1, sin_PI2, cos_PI2. unfold Math.atan2.
    destruct (Rlt_dec 0 0) as [H | _]; [lra |].
    destruct (Rlt_dec 0 1) as [_ | H]; [| lra].
    destruct (Rlt_dec (PI / 2) 0); lra. }
  destruct (Rlt_dec radians (3 * (PI / 2))) as [H2 | H2].
  { replace radians with (radians - PI + PI) by ring.
    destruct (atan2_shifted (radians - PI)) as [E | E]; [lra | |];
      rewrite E; destruct (Rlt_dec _ 0); lra. }
  destruct (Req_dec_T radians (3 * (PI / 2))) as [E2 | N2].
  { rewrite E2, sin_3PI2, cos_3PI2. unfold Math.atan2.
    destruct (Rlt_dec 0 0) as [H | _]; [lra |].
    destruct (Rlt_dec 0 (-1)) as [H | _]; [lra |].
    destruct (Rlt_dec (-1) 0) as [_ | H]; [| lra].
    destruct (Rlt_dec (- (PI / 2)) 0); lra. }
  replace (sin radians) with (sin (radians - 2 * PI)).
  2:{ rewrite <- (sin_period (radians - 2 * PI) 1). f_equal. simpl. ring. }
  replace (cos radians) with (cos (radians - 2 * PI)).
  2:{ rewrite <- (cos_period (radians - 2 * PI) 1). f_equal. simpl. ring. }
  rewrite toAngle_first_quadrant by lra.
  destruct (Rlt_dec (radians - 2 * PI) 0); lra.
Qed.

(** In degrees the round trip goes through the two conversion constants. *)
Lemma toDegrees_fromDegrees (angle : R) :
  0 <= angle < 360 ->
  Vector.toDegrees (Vector.fromDegrees angle)
  = angle * (Vector.degsToRads * Vector.radsToDegs).
Proof.
  intros Ha. pose proof PI_bounds as HPI.
  unfold Vector.toDegrees, Vector.fromDegrees.
  rewrite toAngle_fromAngle by (unfold Vector.degsToRads; lra).
  ring.
Qed.

End RoundTrip.

(** ** Turning *)

Section Turning.

Variables (turnSpeed newAngle currentAngle : R).
Hypothesis turnSpeed_nonneg : 0 <= turnSpeed.
Hypothesis newAngle_range : 0 <= newAngle < 360.
Hypothesis currentAngle_range : 0 <= currentAngle < 360.

Lemma left_range : 0 <= Biod.left newAngle currentAngle < 360.
Proof.
  unfold Biod.left. apply rem_nonneg; lra.
Qed.

Lemma right_range : 0 <= Biod.right newAngle currentAngle < 360.
Proof.
  unfold Biod.right. apply rem_nonneg; lra.
Qed.

Lemma rotation_cases :
  (Biod.left newAngle currentAngle < Biod.right newAngle currentAngle
   /\ Biod.rotationAmount turnSpeed newAngle currentAngle
      = Rmin turnSpeed (Biod.left newAngle currentAngle)
   /\ 0 <= Biod.rotationAmount turnSpeed newAngle currentAngle < 360)
  \/ (Biod.right newAngle currentAngle <= Biod.left newAngle currentAngle
      /\ Biod.rotationAmount turnSpeed newAngle currentAngle
         = - Rmin turnSpeed (Biod.right newAngle currentAngle)
      /\ -360 < Biod.rotationAmount turnSpeed newAngle currentAngle <= 0).
Proof.
  pose proof left_range as Hl. pose proof right_range as Hr.
  unfold Biod.rotationAmount.
  destruct (Rlt_dec (Biod.left newAngle currentAngle)
              (Biod.right newAngle currentAngle)) as [H | H];
    [left | right].
  - split; [exact H |]. split; [reflexivity |].
    unfold Rmin. destruct (Rle_dec turnSpeed _); lra.
  - split; [lra |]. split; [reflexivity |].
    unfold Rmin. destruct (Rle_dec turnSpeed _); lra.
Qed.

Lemma rotation_abs :
  Rabs (Biod.rotationAmount turnSpeed newAngle currentAngle)
  = Rmin turnSpeed
      (Rmin (Biod.left newAngle currentAngle)
            (Biod.right newAngle currentAngle)).
Proof.
  pose proof left_range as Hl. pose proof right_range as Hr.
  destruct rotation_cases as [(H & E & Hrot) | (H & E & Hrot)].
  - rewrite Rabs_pos_eq by lra. rewrite E.
    rewrite (Rmin_left (Biod.left newAngle currentAngle)) by lra.
    reflexivity.
  - rewrite Rabs_left1 by lra. rewrite E.
    rewrite (Rmin_right (Biod.left newAngle currentAngle)) by lra. ring.
Qed.

Lemma rotation_bound :
  Rabs (Biod.rotationAmount turnSpeed newAngle currentAngle) <= turnSpeed.
Proof. rewrite rotation_abs. apply Rmin_l. Qed.

Lemma turned_range :
  0 <= Js.rem (currentAngle
               + Biod.rotationAmount turnSpeed newAngle currentAngle + 360)
         360 < 360.
Proof.
  apply rem_nonneg; [lra |].
  destruct rotation_cases as [(_ & _ & H) | (_ & _ & H)]; lra.
Qed.

(** The angle set by the turn is within [turnSpeed] degrees of the
    current angle. *)
Lemma turned_difference :
  Spec.angularDifference currentAngle
    (Js.rem (currentAngle
             + Biod.rotationAmount turnSpeed newAngle currentAngle + 360)
       360)
  <= Rabs (Biod.rotationAmount turnSpeed newAngle currentAngle).
Proof.
  pose proof turned_range as Ht.
  set (rot := Biod.rotationAmount turnSpeed newAngle currentAngle) in *.
  assert (Hcases : 0 <= rot < 360 \/ -360 < rot <= 0).
  { destruct rotation_cases as [(_ & _ & H) | (_ & _ & H)];
      [left | right]; exact H. }
  assert (Hsum : 0 <= currentAngle + rot + 360)
    by (destruct Hcases; lra).
  destruct (rem_nonneg (currentAngle + rot + 360) 360) as [_ [k Hk]];
    [lra | exact Hsum |].
  set (a := Js.rem (currentAngle + rot + 360) 360) in *.
  unfold Spec.angularDifference, Spec.arc.
  destruct Hcases as [Hrot | Hrot].
  - rewrite Rabs_pos_eq by lra.
    destruct (rem_nonneg (a - currentAngle + 360) 360) as [Hu [k' Hk']];
      [lra | lra |].
    assert (E : Js.rem (a - currentAngle + 360) 360 = rot).
    { apply (rem_unique _ _ 360 (k + k' - 2)); [lra | exact Hu | lra |].
      rewrite minus_IZR, plus_IZR. simpl. lra. }
    rewrite E. apply Rmin_l.
  - rewrite Rabs_left1 by lra.
    destruct (rem_nonneg (currentAngle - a + 360) 360) as [Hu [k' Hk']];
      [lra | lra |].
    assert (E : Js.rem (currentAngle - a + 360) 360 = - rot).
    { apply (rem_unique _ _ 360 (k' - k)); [lra | exact Hu | lra |].
      rewrite minus_IZR. lra. }
    rewrite E. apply Rmin_r.
Qed.

(** An angle that lies at most [e] below the angle set by the turn is
    within the rotation plus [e] of the current angle. *)
Lemma turned_read_back (after e : R) :
  0 <= after ->
  Js.rem (currentAngle
          + Biod.rotationAmount turnSpeed newAngle currentAngle + 360) 360
  - e <= after
  <= Js.rem (currentAngle
             + Biod.rotationAmount turnSpeed newAngle currentAngle + 360)
       360 ->
  Spec.angularDifference currentAngle after
  <= Rabs (Biod.rotationAmount turnSpeed newAngle currentAngle) + e.
Proof.
  intros Ha [Hlo Hhi].
  pose proof turned_range as Ht.
  set (rot := Biod.rotationAmount turnSpeed newAngle currentAngle) in *.
  assert (Hcases : 0 <= rot < 360 \/ -360 < rot <= 0).
  { destruct rotation_cases as [(_ & _ & H) | (_ & _ & H)];
      [left | right]; exact H. }
  assert (Hsum : 0 <= currentAngle + rot + 360)
    by (destruct Hcases; lra).
  destruct (rem_nonneg (currentAngle + rot + 360) 360) as [_ [k Hk]];
    [lra | exact Hsum |].
  set (a := Js.rem (currentAngle + rot + 360) 360) in *.
  pose proof (Rle_abs rot) as Hpos.
  pose proof (Rle_abs (- rot)) as Hneg. rewrite Rabs_Ropp in Hneg.
  unfold Spec.angularDifference, Spec.arc.
  destruct (Rle_dec (a - after) rot) as [Hd | Hd].
  - eapply Rle_trans; [apply Rmin_l |].
    eapply Rle_trans;
      [apply (rem_le _ (rot - (a - after)) 360 (2 - k)); [lra | lra | lra |]
      | lra].
    rewrite minus_IZR. simpl. lra.
  - eapply Rle_trans; [apply Rmin_r |].
    eapply Rle_trans;
      [apply (rem_le _ (a - after - rot) 360 k); lra | lra].
Qed.

End Turning.

(** ** Wrapping around the sandbox *)

Section Wrapping.

Lemma rem_shift (a b : R) : 0 <= a < b -> Js.rem (a + b) b = a.
Proof.
  intros [Ha Hab]. unfold Js.rem.
  assert (Hb : 0 < b) by lra.
  assert (E : (a + b) / b = a / b + 1) by (field; lra).
  assert (Hq : 0 <= a / b) by (apply Rle_mult_inv_pos; assumption).
  assert (Hq1 : a / b < 1).
  { apply Rmult_lt_reg_r with b; [exact Hb |].
    unfold Rdiv. rewrite Rmult_assoc, Rinv_l by lra. lra. }
  rewrite (trunc_unique ((a + b) / b) 1) by (rewrite E; simpl; lra).
  simpl. ring.
Qed.

(** A wrapped coordinate lies in the closed interval [[0, dimension]], and
    it is the dimension itself exactly when the remainder is negative. *)
Lemma wrap_range (coordinate offset dimension : R) :
  0 < dimension ->
  0 <= Biod.wrap coordinate offset dimension <= dimension
  /\ (Js.rem (coordinate + offset) dimension < 0 ->
      Biod.wrap coordinate offset dimension = dimension)
  /\ (0 <= Js.rem (coordinate + offset) dimension ->
      Biod.wrap coordinate offset dimension < dimension).
Proof.
  intros Hd. unfold Biod.wrap.
  pose proof (rem_bound (coordinate + offset) dimension Hd) as Hr.
  destruct (Rlt_dec (Js.rem (coordinate + offset) dimension) 0);
    repeat split; intros; lra.
Qed.

Lemma toDegrees_east : Vector.toDegrees (Vector.mk 1 0) = 0.
Proof.
  unfold Vector.toDegrees, Vector.toAngle, Math.atan2. simpl.
  destruct (Rlt_dec 0 1) as [_ | H]; [| lra].
  replace (0 / 1) with 0 by field. rewrite atan_0.
  destruct (Rlt_dec 0 0); [lra | ring].
Qed.

Lemma toDegrees_south :
  Vector.toDegrees (Vector.mk 0 (-1)) = 3 * PI / 2 * Vector.radsToDegs.
Proof.
  pose proof PI_bounds as HPI.
  unfold Vector.toDegrees, Vector.toAngle, Math.atan2. simpl.
  destruct (Rlt_dec 0 0) as [H | _]; [lra |].
  destruct (Rlt_dec 0 (-1)) as [H | _]; [lra |].
  destruct (Rlt_dec (-1) 0) as [_ | H]; [| lra].
  destruct (Rlt_dec (- (PI / 2)) 0) as [_ | H]; [| lra].
  field.
Qed.

(** A biod heading east that is asked to head south turns clockwise by its
    turn speed, to 350 degrees. *)
Lemma turnedAngle_south (px py : R) :
  Biod.turnedAngle (biodAt px py) (Vector.mk 0 (-1)) = 350.
Proof.
  pose proof PI_bounds as HPI.
  unfold Biod.turnedAngle. simpl Biod.heading. simpl Biod.turnSpeed.
  rewrite toDegrees_east, toDegrees_south.
  set (A := 3 * PI / 2 * Vector.radsToDegs).
  assert (HA : 269 < A < 271) by (unfold A, Vector.radsToDegs; lra).
  unfold Biod.rotationAmount, Biod.left, Biod.right.
  replace (A - 0 + 360) with (A + 360) by ring.
  replace (0 - A + 360) with (360 - A) by ring.
  rewrite (rem_shift A 360) by lra. rewrite (rem_small (360 - A)) by lra.
  destruct (Rlt_dec A (360 - A)) as [H | _]; [lra |].
  rewrite Rmin_left by lra.
  rewrite rem_small by lra. ring.
Qed.

Lemma sin_350_degrees : -1 <= sin (350 * Vector.degsToRads) < 0.
Proof.
  pose proof PI_bounds as HPI.
  split; [apply SIN_bound |].
  apply sin_lt_0; unfold Vector.degsToRads; lra.
Qed.

End Wrapping.

(** C4, on the source: a biod at [(400, 0)] that turns toward the
    south leaves the sandbox through the edge [y = 0] and is put on
    [y = 600], the sandbox dimension itself, which is not below the
    dimension. *)
Lemma move_reaches_dimension :
  let b := Biod.move (biodAt 400 0) (Vector.mk 0 (-1)) in
  Vector.y (Biod.position b) = Vector.y (Biod.sandboxDimensions b)
  /\ ~ (0 <= Vector.y (Biod.position b) < Vector.y (Biod.sandboxDimensions b)).
Proof.
  assert (E : Vector.y (Biod.position (Biod.move (biodAt 400 0) (Vector.mk 0 (-1))))
              = 600).
  { unfold Biod.move. simpl Biod.position. simpl Vector.y.
    rewrite turnedAngle_south.
    pose proof sin_350_degrees as Hs.
    unfold Vector.fromDegrees, Vector.fromAngle. simpl.
    unfold Biod.wrap.
    rewrite rem_small_neg by lra.
    destruct (Rlt_dec (0 + sin (350 * Vector.degsToRads) * 3) 0); [reflexivity | lra]. }
  cbv zeta. rewrite E. simpl. split; [reflexivity | lra].
Qed.

(** X19, what the wrap does keep: after a move of a biod or of a predator in a
    sandbox of positive dimensions, each position component lies in the
    closed interval from 0 to the sandbox dimension; it is below the
    dimension when the remainder of the step is not negative and equal to
    the dimension when it is negative. *)
Theorem move_position_in_sandbox
    (b : Biod.t) (p : Predator.t) (flock : list Biod.t)
    (newHeading : Vector.t) :
  0 < Vector.x (Biod.sandboxDimensions b) ->
  0 < Vector.y (Biod.sandboxDimensions b) ->
  0 < Vector.x (Predator.sandboxDimensions p) ->
  0 < Vector.y (Predator.sandboxDimensions p) ->
  let b' := Biod.move b newHeading in
  let p' := fst (Predator.move p newHeading flock) in
  let bstep := Vector.scale (Biod.heading b') (Biod.speed b) in
  let pstep := Vector.scale (Predator.heading p') (Predator.speed p) in
  (0 <= Vector.x (Biod.position b') <= Vector.x (Biod.sandboxDimensions b)
   /\ 0 <= Vector.y (Biod.position b') <= Vector.y (Biod.sandboxDimensions b)
   /\ 0 <= Vector.x (Predator.position p')
        <= Vector.x (Predator.sandboxDimensions p)
   /\ 0 <= Vector.y (Predator.position p')
        <= Vector.y (Predator.sandboxDimensions p))
  /\ (0 <= Js.rem (Vector.x (Biod.position b) + Vector.x bstep)
             (Vector.x (Biod.sandboxDimensions b)) ->
      Vector.x (Biod.position b') < Vector.x (Biod.sandboxDimensions b))
  /\ (0 <= Js.rem (Vector.y (Biod.position b) + Vector.y bstep)
             (Vector.y (Biod.sandboxDimensions b)) ->
      Vector.y (Biod.position b') < Vector.y (Biod.sandboxDimensions b))
  /\ (0 <= Js.rem (Vector.x (Predator.position p) + Vector.x pstep)
             (Vector.x (Predator.sandboxDimensions p)) ->
      Vector.x (Predator.position p') < Vector.x (Predator.sandboxDimensions p))
  /\ (0 <= Js.rem (Vector.y (Predator.position p) + Vector.y pstep)
             (Vector.y (Predator.sandboxDimensions p)) ->
      Vector.y (Predator.position p') < Vector.y (Predator.sandboxDimensions p))
  /\ (Js.rem (Vector.x (Biod.position b) + Vector.x bstep)
        (Vector.x (Biod.sandboxDimensions b)) < 0 ->
      Vector.x (Biod.position b') = Vector.x (Biod.sandboxDimensions b))
  /\ (Js.rem (Vector.y (Biod.position b) + Vector.y bstep)
        (Vector.y (Biod.sandboxDimensions b)) < 0 ->
      Vector.y (Biod.position b') = Vector.y (Biod.sandboxDimensions b))
  /\ (Js.rem (Vector.x (Predator.position p) + Vector.x pstep)
        (Vector.x (Predator.sandboxDimensions p)) < 0 ->
      Vector.x (Predator.position p') = Vector.x (Predator.sandboxDimensions p))
  /\ (Js.rem (Vector.y (Predator.position p) + Vector.y pstep)
        (Vector.y (Predator.sandboxDimensions p)) < 0 ->
      Vector.y (Predator.position p') = Vector.y (Predator.sandboxDimensions p)).
Proof.
  intros Hbx Hby Hpx Hpy b' p' bstep pstep.
  destruct (wrap_range (Vector.x (Biod.position b)) (Vector.x bstep) _ Hbx)
    as (Rbx & Nbx & Pbx).
  destruct (wrap_range (Vector.y (Biod.position b)) (Vector.y bstep) _ Hby)
    as (Rby & Nby & Pby).
  destruct (wrap_range (Vector.x (Predator.position p)) (Vector.x pstep) _ Hpx)
    as (Rpx & Npx & Ppx).
  destruct (wrap_range (Vector.y (Predator.position p)) (Vector.y pstep) _ Hpy)
    as (Rpy & Npy & Ppy).
  repeat split; try tauto; assumption.
Qed.

(** ** The turn of a move, measured on the headings *)

Section TurnRate.

Variables (turnSpeed newAngle currentAngle : R).
Hypothesis turnSpeed_nonneg : 0 <= turnSpeed.
Hypothesis newAngle_range : 0 <= newAngle < 360.
Hypothesis currentAngle_range : 0 <= currentAngle < 360.

(** The rotation, the angle that the turn sets, and the angle of the
    vector that [fromDegrees] makes of it. *)
Lemma turn_facts :
  Rabs (Biod.rotationAmount turnSpeed newAngle currentAngle)
  = Rmin turnSpeed
      (Rmin (Spec.arc currentAngle newAngle)
            (Spec.arc newAngle currentAngle))
  /\ (Spec.arc currentAngle newAngle < Spec.arc newAngle currentAngle ->
      0 <= Biod.rotationAmount turnSpeed newAngle currentAngle)
  /\ (Spec.arc newAngle currentAngle <= Spec.arc currentAngle newAngle ->
      Biod.rotationAmount turnSpeed newAngle currentAngle <= 0)
  /\ Spec.angularDifference currentAngle
       (Js.rem (currentAngle
                + Biod.rotationAmount turnSpeed newAngle currentAngle + 360)
          360)
     <= turnSpeed
  /\ Vector.toDegrees
       (Vector.fromDegrees
          (Js.rem (currentAngle
                   + Biod.rotationAmount turnSpeed newAngle currentAngle
                   + 360) 360))
     = Js.rem (currentAngle
               + Biod.rotationAmount turnSpeed newAngle currentAngle + 360)
         360
       * (Vector.degsToRads * Vector.radsToDegs)
  /\ Spec.angularDifference currentAngle
       (Vector.toDegrees
          (Vector.fromDegrees
             (Js.rem (currentAngle
                      + Biod.rotationAmount turnSpeed newAngle currentAngle
                      + 360) 360)))
     <= turnSpeed + 0.0000005.
Proof.
  pose proof (turned_range turnSpeed newAngle currentAngle turnSpeed_nonneg
                newAngle_range currentAngle_range) as Ht.
  pose proof (rotation_bound turnSpeed newAngle currentAngle turnSpeed_nonneg
                newAngle_range currentAngle_range) as Hrb.
  split; [apply rotation_abs; assumption |].
  split.
  { destruct (rotation_cases turnSpeed newAngle currentAngle
                turnSpeed_nonneg newAngle_range currentAngle_range)
      as [(H & _ & Hrot) | (H & _ & Hrot)].
    - intros _. lra.
    - unfold Spec.arc. unfold Biod.left, Biod.right in H. intros H'. lra. }
  split.
  { destruct (rotation_cases turnSpeed newAngle currentAngle
                turnSpeed_nonneg newAngle_range currentAngle_range)
      as [(H & _ & Hrot) | (H & _ & Hrot)].
    - unfold Spec.arc. unfold Biod.left, Biod.right in H. intros H'. lra.
    - intros _. lra. }
  split.
  { eapply Rle_trans; [apply turned_difference; assumption | exact Hrb]. }
  rewrite (toDegrees_fromDegrees _ Ht).
  split; [reflexivity |].
  eapply Rle_trans;
    [apply (turned_read_back turnSpeed newAngle currentAngle
              turnSpeed_nonneg newAngle_range currentAngle_range _
              0.0000005)
    | lra].
  - unfold Vector.degsToRads, Vector.radsToDegs. nra.
  - unfold Vector.degsToRads, Vector.radsToDegs. lra.
Qed.

End TurnRate.

(** A biod that heads east with a turn speed of 10 degrees and is asked to
    head south gets the heading of 350 degrees, which [toDegrees] reads
    back as 350 times the product of the two conversion constants: the
    heading angle has changed by 360 minus that. *)
Lemma turn_south_read_back (px py : R) :
  Biod.heading (Biod.move (biodAt px py) (Vector.mk 0 (-1)))
  = Vector.mk (cos (350 * Vector.degsToRads)) (sin (350 * Vector.degsToRads))
  /\ Vector.toDegrees
       (Biod.heading (Biod.move (biodAt px py) (Vector.mk 0 (-1))))
     = 350 * (Vector.degsToRads * Vector.radsToDegs)
  /\ Spec.angularDifference
       (Vector.toDegrees (Biod.heading (biodAt px py)))
       (Vector.toDegrees
          (Biod.heading (Biod.move (biodAt px py) (Vector.mk 0 (-1)))))
     = 360 - 350 * (Vector.degsToRads * Vector.radsToDegs).
Proof.
  assert (E : Biod.heading (Biod.move (biodAt px py) (Vector.mk 0 (-1)))
              = Vector.fromDegrees 350).
  { unfold Biod.move. simpl Biod.heading.
    change (Biod.turnedAngle _ (Vector.mk 0 (-1)))
      with (Biod.turnedAngle (biodAt px py) (Vector.mk 0 (-1))).
    rewrite turnedAngle_south. reflexivity. }
  rewrite E. split; [reflexivity |].
  rewrite toDegrees_fromDegrees by lra.
  split; [reflexivity |].
  simpl Biod.heading. rewrite toDegrees_east.
  set (A := 350 * (Vector.degsToRads * Vector.radsToDegs)).
  assert (HA : 349 < A < 350)
    by (unfold A, Vector.degsToRads, Vector.radsToDegs; lra).
  unfold Spec.angularDifference, Spec.arc.
  replace (A - 0 + 360) with (A + 360) by ring.
  replace (0 - A + 360) with (360 - A) by ring.
  rewrite (rem_shift A 360) by lra. rewrite (rem_small (360 - A)) by lra.
  apply Rmin_right. lra.
Qed.

(** C5, as the source has it: a biod with a turn speed of 10 degrees that
    heads east and is asked to head south has, after one move, a heading
    whose angle differs from the angle before by more than 10 degrees. *)
Lemma move_turn_exceeds_turnSpeed :
  let b := biodAt 400 300 in
  let newHeading := Vector.mk 0 (-1) in
  Biod.turnSpeed b = 10
  /\ Biod.turnSpeed b
     < Spec.angularDifference
         (Vector.toDegrees (Biod.heading b))
         (Vector.toDegrees (Biod.heading (Biod.move b newHeading))).
Proof.
  cbv zeta. split; [reflexivity |].
  rewrite (proj2 (proj2 (turn_south_read_back 400 300))).
  simpl Biod.turnSpeed. unfold Vector.degsToRads, Vector.radsToDegs. lra.
Qed.

(** C5, amended: for a turn speed that is not negative, one call to [move],
    of a biod or of a predator, sets the heading to the unit vector of the
    angle [(currentAngle + rotation + 360) % 360], where the rotation has
    magnitude [min(turnSpeed, shorter arc)], is counter-clockwise when the
    arc [(newAngle - currentAngle + 360) % 360] is the strictly shorter one
    and clockwise otherwise; the angular difference (with the wrap at 0/360)
    between the angle before and the angle set is at most [turnSpeed].  The
    angle of the heading after the move is the angle set times the product
    of the conversion constants 0.0174532925 and 57.2957795, and it differs
    from the angle before by at most [turnSpeed + 0.0000005] degrees.  The
    biod at (400, 300) that heads east with a turn speed of 10 and is asked
    to head south gets the heading [(cos 350d, sin 350d)], with [d] the
    constant 0.0174532925, and its heading angle changes by
    [360 - 350 * 0.0174532925 * 57.2957795] degrees. *)
Theorem move_turn_rate_bound
    (b : Biod.t) (p : Predator.t) (flock : list Biod.t)
    (newHeading : Vector.t) :
  0 <= Biod.turnSpeed b ->
  0 <= Predator.turnSpeed p ->
  (let cur := Vector.toDegrees (Biod.heading b) in
   let new := Vector.toDegrees newHeading in
   let after := Vector.toDegrees (Biod.heading (Biod.move b newHeading)) in
   exists rot : R,
     Biod.heading (Biod.move b newHeading)
     = Vector.fromDegrees (Js.rem (cur + rot + 360) 360)
     /\ Rabs rot
        = Rmin (Biod.turnSpeed b) (Rmin (Spec.arc cur new) (Spec.arc new cur))
     /\ (Spec.arc cur new < Spec.arc new cur -> 0 <= rot)
     /\ (Spec.arc new cur <= Spec.arc cur new -> rot <= 0)
     /\ Spec.angularDifference cur (Js.rem (cur + rot + 360) 360)
        <= Biod.turnSpeed b
     /\ after
        = Js.rem (cur + rot + 360) 360
          * (Vector.degsToRads * Vector.radsToDegs)
     /\ Spec.angularDifference cur after <= Biod.turnSpeed b + 0.0000005)
  /\
  (let cur := Vector.toDegrees (Predator.heading p) in
   let new := Vector.toDegrees newHeading in
   let after :=
     Vector.toDegrees
       (Predator.heading (fst (Predator.move p newHeading flock))) in
   exists rot : R,
     Predator.heading (fst (Predator.move p newHeading flock))
     = Vector.fromDegrees (Js.rem (cur + rot + 360) 360)
     /\ Rabs rot
        = Rmin (Predator.turnSpeed p)
            (Rmin (Spec.arc cur new) (Spec.arc new cur))
     /\ (Spec.arc cur new < Spec.arc new cur -> 0 <= rot)
     /\ (Spec.arc new cur <= Spec.arc cur new -> rot <= 0)
     /\ Spec.angularDifference cur (Js.rem (cur + rot + 360) 360)
        <= Predator.turnSpeed p
     /\ after
        = Js.rem (cur + rot + 360) 360
          * (Vector.degsToRads * Vector.radsToDegs)
     /\ Spec.angularDifference cur after <= Predator.turnSpeed p + 0.0000005)
  /\
  (let b0 := biodAt 400 300 in
   Biod.heading b0 = Vector.mk 1 0
   /\ Biod.turnSpeed b0 = 10
   /\ Biod.heading (Biod.move b0 (Vector.mk 0 (-1)))
      = Vector.mk (cos (350 * 0.0174532925)) (sin (350 * 0.0174532925))
   /\ Vector.toDegrees (Biod.heading (Biod.move b0 (Vector.mk 0 (-1))))
      = 350 * (0.0174532925 * 57.2957795)
   /\ Spec.angularDifference
        (Vector.toDegrees (Biod.heading b0))
        (Vector.toDegrees (Biod.heading (Biod.move b0 (Vector.mk 0 (-1)))))
      = 360 - 350 * (0.0174532925 * 57.2957795)).
Proof.
  intros Hb Hp.
  pose proof (toDegrees_range newHeading) as Hnew.
  split; [| split].
  - pose proof (toDegrees_range (Biod.heading b)) as Hcur.
    intros cur new after.
    exists (Biod.rotationAmount (Biod.turnSpeed b) new cur).
    split; [reflexivity |].
    exact (turn_facts (Biod.turnSpeed b) new cur Hb Hnew Hcur).
  - pose proof (toDegrees_range (Predator.heading p)) as Hcur.
    intros cur new after.
    exists (Biod.rotationAmount (Predator.turnSpeed p) new cur).
    split; [reflexivity |].
    exact (turn_facts (Predator.turnSpeed p) new cur Hp Hnew Hcur).
  - cbv zeta. split; [reflexivity |]. split; [reflexivity |].
    exact (turn_south_read_back 400 300).
Qed.

Lemma move_turn_rate_bound_witness :
  0 <= Biod.turnSpeed (biodAt 400 300)
  /\ 0 <= Predator.turnSpeed (predatorAt 100 100)
  /\ Spec.angularDifference
       (Vector.toDegrees (Biod.heading (biodAt 400 300)))
       (Vector.toDegrees
          (Biod.heading (Biod.move (biodAt 400 300) (Vector.mk 0 1))))
     <= 10 + 0.0000005
  /\ Spec.angularDifference
       (Vector.toDegrees (Predator.heading (predatorAt 100 100)))
       (Vector.toDegrees
          (Predator.heading
             (fst (Predator.move (predatorAt 100 100) (Vector.mk 0 1) []))))
     <= 12 + 0.0000005.
Proof.
  assert (Hb : 0 <= Biod.turnSpeed (biodAt 400 300)) by (simpl; lra).
  assert (Hp : 0 <= Predator.turnSpeed (predatorAt 100 100)) by (simpl; lra).
  split; [exact Hb |]. split; [exact Hp |].
  destruct (move_turn_rate_bound (biodAt 400 300) (predatorAt 100 100) []
              (Vector.mk 0 1) Hb Hp)
    as [[rb (_ & _ & _ & _ & _ & _ & Db)]
          [[rp (_ & _ & _ & _ & _ & _ & Dp)] _]].
  split; [exact Db | exact Dp].
Defined.

(** ** Lengths and normalization *)

Section Normalization.

Lemma sum_squares_nonneg (a b : R) : 0 <= a * a + b * b.
Proof. nra. Qed.

Lemma length_nonneg (v : Vector.t) : 0 <= Vector.length v.
Proof. apply sqrt_pos. Qed.

Lemma length_square (v : Vector.t) :
  Vector.length v * Vector.length v
  = Vector.x v * Vector.x v + Vector.y v * Vector.y v.
Proof. apply sqrt_sqrt, sum_squares_nonneg. Qed.

Lemma length_zero : Vector.length Vector.zero = 0.
Proof.
  unfold Vector.length. simpl.
  replace (0 * 0 + 0 * 0) with 0 by ring. apply sqrt_0.
Qed.

Lemma length_zero_inv (v : Vector.t) :
  Vector.length v = 0 -> v = Vector.zero.
Proof.
  intros H. pose proof (length_square v) as E. rewrite H in E.
  destruct v as [a b]. simpl in E. unfold Vector.zero.
  assert (a = 0) by nra. assert (b = 0) by nra. subst. reflexivity.
Qed.

Lemma normalize_zero : Vector.normalize Vector.zero = Vector.zero.
Proof.
  unfold Vector.normalize. rewrite length_zero.
  destruct (Req_dec_T 0 0) as [_ | H]; [reflexivity | contradiction].
Qed.

(** Division only happens by a non-zero length, and then yields a vector
    of length one. *)
Lemma normalize_unit (v : Vector.t) :
  Vector.length v <> 0 -> Vector.length (Vector.normalize v) = 1.
Proof.
  intros H. unfold Vector.normalize.
  destruct (Req_dec_T (Vector.length v) 0) as [E | _]; [contradiction |].
  pose proof (length_nonneg v) as Hn. pose proof (length_square v) as Hs.
  unfold Vector.length at 1. simpl.
  apply sqrt_lem_1; [apply sum_squares_nonneg | lra |].
  set (len := Vector.length v) in *.
  replace (Vector.x v / len * (Vector.x v / len)
           + Vector.y v / len * (Vector.y v / len))
    with ((Vector.x v * Vector.x v + Vector.y v * Vector.y v) / (len * len))
    by (field; exact H).
  rewrite <- Hs. field. exact H.
Qed.

Lemma normalize_fixed (v : Vector.t) :
  Vector.length v = 0 -> Vector.normalize v = v.
Proof.
  intros H. unfold Vector.normalize.
  destruct (Req_dec_T (Vector.length v) 0) as [_ | N];
    [reflexivity | contradiction].
Qed.

Lemma length_divided (v : Vector.t) (k : R) :
  0 < k ->
  Vector.length (Vector.mk (Vector.x v / k) (Vector.y v / k))
  = Vector.length v / k.
Proof.
  intros Hk. pose proof (length_nonneg v) as Hn.
  pose proof (length_square v) as Hs.
  unfold Vector.length at 1. simpl.
  apply sqrt_lem_1; [apply sum_squares_nonneg | |].
  - apply Rle_mult_inv_pos; assumption.
  - replace (Vector.length v / k * (Vector.length v / k))
      with (Vector.length v * Vector.length v / (k * k)) by (field; lra).
    rewrite Hs. field. lra.
Qed.

(** Dividing a vector by a positive number does not change its
    direction. *)
Lemma normalize_divided (v : Vector.t) (k : R) :
  0 < k ->
  Vector.normalize (Vector.mk (Vector.x v / k) (Vector.y v / k))
  = Vector.normalize v.
Proof.
  intros Hk. pose proof (length_nonneg v) as Hn.
  unfold Vector.normalize. rewrite length_divided by exact Hk. simpl.
  destruct (Req_dec_T (Vector.length v) 0) as [E | N].
  - rewrite E.
    destruct (Req_dec_T (0 / k) 0) as [_ | N]; [| exfalso; apply N; field; lra].
    apply length_zero_inv in E. rewrite E. unfold Vector.zero. simpl.
    f_equal; field; lra.
  - destruct (Req_dec_T (Vector.length v / k) 0) as [E | _].
    + exfalso. apply N.
      apply Rmult_eq_reg_r with (/ k); [| apply Rinv_neq_0_compat; lra].
      unfold Rdiv in E. rewrite E. ring.
    + f_equal; field; split; lra.
Qed.

Lemma normalize_idempotent (v : Vector.t) :
  Vector.normalize (Vector.normalize v) = Vector.normalize v.
Proof.
  destruct (Req_dec_T (Vector.length v) 0) as [E | N].
  - rewrite (normalize_fixed v E). apply normalize_fixed, E.
  - pose proof (normalize_unit v N) as U.
    unfold Vector.normalize at 1. rewrite U.
    destruct (Req_dec_T 1 0) as [H | _]; [lra |].
    destruct (Vector.normalize v) as [a b]. simpl. f_equal; field.
Qed.

Lemma direction_length (p q : Vector.t) :
  p <> q -> Vector.length (Vector.getDirectionTo p q) = 1.
Proof.
  intros H. unfold Vector.getDirectionTo. apply normalize_unit.
  intros E. apply length_zero_inv in E. apply H.
  destruct p as [a b], q as [c d]. unfold Vector.zero in E. simpl in E.
  injection E as Ex Ey. f_equal; lra.
Qed.

Lemma direction_same (p : Vector.t) :
  Vector.getDirectionTo p p = Vector.zero.
Proof.
  unfold Vector.getDirectionTo.
  replace (Vector.mk (Vector.x p - Vector.x p) (Vector.y p - Vector.y p))
    with Vector.zero by (unfold Vector.zero; f_equal; ring).
  apply normalize_zero.
Qed.

Lemma length_scaled (v : Vector.t) (k : R) :
  0 <= k -> Vector.length (Vector.scale v k) = Vector.length v * k.
Proof.
  intros Hk. pose proof (length_nonneg v) as Hn.
  pose proof (length_square v) as Hs.
  unfold Vector.length at 1. simpl.
  apply sqrt_lem_1; [apply sum_squares_nonneg | nra |].
  replace (Vector.length v * k * (Vector.length v * k))
    with (Vector.length v * Vector.length v * (k * k)) by ring.
  rewrite Hs. ring.
Qed.

(** The distance of two points on one horizontal line. *)
Lemma distance_horizontal (a b c : R) :
  Vector.getDistance (Vector.mk a c) (Vector.mk b c) = Rabs (b - a).
Proof.
  unfold Vector.getDistance. simpl.
  match goal with
  | |- sqrt ?e = _ => replace e with (Rsqr (b - a)) by (unfold Rsqr; ring)
  end.
  apply sqrt_Rsqr_abs.
Qed.

(** The direction between two points on one horizontal line. *)
Lemma direction_horizontal (a b c : R) :
  a <> b ->
  Vector.getDirectionTo (Vector.mk a c) (Vector.mk b c)
  = Vector.mk ((b - a) / Rabs (b - a)) 0.
Proof.
  intros H. unfold Vector.getDirectionTo, Vector.normalize, Vector.length.
  simpl.
  replace ((b - a) * (b - a) + (c - c) * (c - c)) with (Rsqr (b - a))
    by (unfold Rsqr; ring).
  rewrite sqrt_Rsqr_abs.
  assert (N : Rabs (b - a) <> 0) by (apply Rabs_no_R0; lra).
  destruct (Req_dec_T (Rabs (b - a)) 0) as [E | _]; [contradiction |].
  f_equal. field. exact N.
Qed.

End Normalization.

(** ** The heading of a biod without neighbors *)

Section Isolated.

Lemma sees_self (this other : Biod.t) (self : nat) :
  Biod.sees this self self other = false.
Proof.
  unfold Biod.sees. rewrite Nat.eqb_refl. simpl.
  rewrite andb_false_r. reflexivity.
Qed.

Lemma divideNonZero_zero (n : nat) :
  Biod.divideNonZero Vector.zero n = Vector.zero.
Proof.
  unfold Biod.divideNonZero, Vector.zero. simpl.
  destruct (Req_dec_T 0 0) as [_ | H]; [reflexivity | contradiction].
Qed.

(** Without neighbors and without influences the only force left is the
    direction to the point [(0, 0)]. *)
Lemma combined_isolated (this : Biod.t) (self : nat) (flock : list Biod.t) :
  Biod.neighbors this self flock = [] ->
  Biod.emitterInfluences this = [] ->
  Biod.combined this self flock
  = Vector.getDirectionTo (Biod.position this) Vector.zero.
Proof.
  intros Hn He.
  unfold Biod.combined, Biod.emitterSum, Biod.alignment, Biod.crowding,
    Biod.cohesion.
  rewrite Hn, He. simpl.
  rewrite divideNonZero_zero, normalize_zero.
  destruct (Vector.getDirectionTo (Biod.position this) Vector.zero)
    as [a b].
  unfold Vector.inplaceAdd, Vector.zero. simpl. f_equal; ring.
Qed.

Lemma averaged_isolated (this : Biod.t) (self : nat) (flock : list Biod.t) :
  Biod.neighbors this self flock = [] ->
  Biod.emitterInfluences this = [] ->
  Biod.averaged this self flock
  = Vector.mk
      (Vector.x (Vector.getDirectionTo (Biod.position this) Vector.zero) / 3)
      (Vector.y (Vector.getDirectionTo (Biod.position this) Vector.zero) / 3).
Proof.
  intros Hn He. unfold Biod.averaged.
  rewrite (combined_isolated this self flock Hn He), He. simpl.
  f_equal; field.
Qed.

Lemma newHeading_zero (this : Biod.t) (self : nat) (flock : list Biod.t) :
  Biod.combined this self flock = Vector.zero ->
  fst (Biod.calculateNewHeading this self flock) = Vector.zero.
Proof.
  intros Hc.
  change (fst (Biod.calculateNewHeading this self flock))
    with (Vector.normalize (Biod.averaged this self flock)).
  unfold Biod.averaged. rewrite Hc. unfold Vector.zero at 1 2.
  simpl Vector.x. simpl Vector.y.
  replace (0 / (3 + INR (Datatypes.length (Biod.emitterInfluences this))))
    with 0 by (unfold Rdiv; ring).
  apply normalize_zero.
Qed.

Lemma toDegrees_zero : Vector.toDegrees Vector.zero = 0.
Proof.
  unfold Vector.toDegrees, Vector.toAngle, Math.atan2. simpl.
  destruct (Rlt_dec 0 0) as [H | _]; [lra |].
  destruct (Rlt_dec 0 0) as [H | _]; [lra | ring].
Qed.

(** [move] reads its argument through [toDegrees] only. *)
Lemma move_by_angle (this : Biod.t) (u v : Vector.t) :
  Vector.toDegrees u = Vector.toDegrees v ->
  Biod.move this u = Biod.move this v.
Proof.
  intros E. unfold Biod.move, Biod.turnedAngle. rewrite E. reflexivity.
Qed.

Lemma fromDegrees_0 : Vector.fromDegrees 0 = Vector.mk 1 0.
Proof.
  unfold Vector.fromDegrees, Vector.fromAngle.
  rewrite Rmult_0_l, cos_0, sin_0. reflexivity.
Qed.

(** Asked to head east, a biod that heads east keeps its heading. *)
Lemma turnedAngle_east (this : Biod.t) :
  0 <= Biod.turnSpeed this ->
  Biod.heading this = Vector.mk 1 0 ->
  Biod.turnedAngle this (Vector.mk 1 0) = 0.
Proof.
  intros Hts Hh. unfold Biod.turnedAngle. rewrite Hh, toDegrees_east.
  unfold Biod.rotationAmount, Biod.left, Biod.right.
  replace (0 - 0 + 360) with (0 + 360) by ring.
  rewrite (rem_shift 0 360) by lra.
  destruct (Rlt_dec 0 0) as [H | _]; [lra |].
  rewrite Rmin_right by exact Hts.
  replace (0 + - 0 + 360) with (0 + 360) by ring.
  apply rem_shift. lra.
Qed.

Lemma toDegrees_north :
  Vector.toDegrees (Vector.mk 0 1) = PI / 2 * Vector.radsToDegs.
Proof.
  pose proof PI_bounds as HPI.
  unfold Vector.toDegrees, Vector.toAngle, Math.atan2. simpl.
  destruct (Rlt_dec 0 0) as [H | _]; [lra |].
  destruct (Rlt_dec 0 1) as [_ | H]; [| lra].
  destruct (Rlt_dec (PI / 2) 0) as [H | _]; [lra | reflexivity].
Qed.

(** A biod heading north that is asked to head east turns clockwise by
    its turn speed of 10 degrees. *)
Lemma turnedAngle_north_east (px py : R) :
  Biod.turnedAngle (heads (biodAt px py) (Vector.mk 0 1)) (Vector.mk 1 0)
  = PI / 2 * Vector.radsToDegs - 10.
Proof.
  pose proof PI_bounds as HPI.
  unfold Biod.turnedAngle. simpl Biod.heading. simpl Biod.turnSpeed.
  rewrite toDegrees_east, toDegrees_north.
  set (B := PI / 2 * Vector.radsToDegs).
  assert (HB : 89 < B < 90) by (unfold B, Vector.radsToDegs; lra).
  unfold Biod.rotationAmount, Biod.left, Biod.right.
  replace (0 - B + 360) with (360 - B) by ring.
  replace (B - 0 + 360) with (B + 360) by ring.
  rewrite (rem_small (360 - B)) by lra. rewrite (rem_shift B 360) by lra.
  destruct (Rlt_dec (360 - B) B) as [H | _]; [lra |].
  rewrite Rmin_left by lra.
  replace (B + - (10) + 360) with (B - 10 + 360) by ring.
  apply rem_shift. lra.
Qed.

End Isolated.

(** C10: a biod without visible neighbors and without emitter influences
    whose position [(px, py)] is not the origin gets, from
    [calculateNewHeading], the unit vector that points from its position to
    the point [(0, 0)]: the vector [(- px / d, - py / d)], with [d] the
    distance of the position from [(0, 0)], whatever its heading is. *)
Theorem isolated_biod_heads_to_origin
    (this : Biod.t) (self : nat) (flock : list Biod.t) :
  Biod.neighbors this self flock = [] ->
  Biod.emitterInfluences this = [] ->
  Biod.position this <> Vector.mk 0 0 ->
  fst (Biod.calculateNewHeading this self flock)
  = Vector.getDirectionTo (Biod.position this) (Vector.mk 0 0)
  /\ Vector.length (fst (Biod.calculateNewHeading this self flock)) = 1
  /\ fst (Biod.calculateNewHeading this self flock)
     = Vector.mk
         (- Vector.x (Biod.position this)
          / sqrt (Vector.x (Biod.position this) * Vector.x (Biod.position this)
                  + Vector.y (Biod.position this)
                    * Vector.y (Biod.position this)))
         (- Vector.y (Biod.position this)
          / sqrt (Vector.x (Biod.position this) * Vector.x (Biod.position this)
                  + Vector.y (Biod.position this)
                    * Vector.y (Biod.position this))).
Proof.
  intros Hn He Hp.
  assert (E : fst (Biod.calculateNewHeading this self flock)
              = Vector.getDirectionTo (Biod.position this) (Vector.mk 0 0)).
  { unfold Biod.calculateNewHeading. simpl fst.
    rewrite (averaged_isolated this self flock Hn He).
    rewrite normalize_divided by lra.
    unfold Vector.getDirectionTo. apply normalize_idempotent. }
  split; [exact E |].
  split; [rewrite E; apply direction_length; exact Hp |].
  rewrite E. clear E Hn He.
  destruct (Biod.position this) as [px py]. simpl Vector.x. simpl Vector.y.
  assert (Hpos : 0 < px * px + py * py).
  { destruct (Req_dec_T px 0) as [Ex | Ex].
    - destruct (Req_dec_T py 0) as [Ey | Ey].
      + subst px py. contradiction Hp. reflexivity.
      + subst px. nra.
    - nra. }
  assert (Hd : 0 < sqrt (px * px + py * py)) by (apply sqrt_lt_R0; exact Hpos).
  unfold Vector.getDirectionTo, Vector.normalize, Vector.length.
  simpl Vector.x. simpl Vector.y.
  replace ((0 - px) * (0 - px) + (0 - py) * (0 - py))
    with (px * px + py * py) by ring.
  destruct (Req_dec_T (sqrt (px * px + py * py)) 0) as [E0 | _]; [lra |].
  f_equal; unfold Rdiv; ring.
Qed.

Lemma isolated_biod_heads_to_origin_witness :
  Biod.neighbors (biodAt 3 4) 0 [biodAt 3 4] = []
  /\ Biod.emitterInfluences (biodAt 3 4) = []
  /\ Biod.position (biodAt 3 4) <> Vector.mk 0 0
  /\ Biod.heading (biodAt 3 4) = Vector.mk 1 0
  /\ fst (Biod.calculateNewHeading (biodAt 3 4) 0 [biodAt 3 4])
     = Vector.mk (- 3 / 5) (- 4 / 5).
Proof.
  assert (Hn : Biod.neighbors (biodAt 3 4) 0 [biodAt 3 4] = []).
  { unfold Biod.neighbors. simpl. rewrite sees_self. reflexivity. }
  assert (Hp : Biod.position (biodAt 3 4) <> Vector.mk 0 0).
  { simpl. intros E. injection E as Ex Ey. lra. }
  split; [exact Hn |]. split; [reflexivity |]. split; [exact Hp |].
  split; [reflexivity |].
  rewrite (proj2 (proj2 (isolated_biod_heads_to_origin (biodAt 3 4) 0
                           [biodAt 3 4] Hn eq_refl Hp))).
  simpl Vector.x. simpl Vector.y.
  replace (3 * 3 + 4 * 4) with (5 * 5) by lra.
  rewrite sqrt_square by lra. reflexivity.
Defined.

(** ** A zero steering vector *)

(** C3, as the source has it: a lone biod at the origin that heads north has
    a zero combined steering vector, and the move of that tick turns its
    heading, which does not stay what it was. *)
Lemma zero_steering_turns_heading :
  let this := heads (biodAt 0 0) (Vector.mk 0 1) in
  Biod.combined this 0 [this] = Vector.zero
  /\ Biod.heading
       (Biod.move (snd (Biod.calculateNewHeading this 0 [this]))
                  (fst (Biod.calculateNewHeading this 0 [this])))
     <> Biod.heading this.
Proof.
  cbv zeta.
  set (this := heads (biodAt 0 0) (Vector.mk 0 1)).
  assert (Hn : Biod.neighbors this 0 [this] = []).
  { unfold Biod.neighbors. simpl. rewrite sees_self. reflexivity. }
  assert (Hc : Biod.combined this 0 [this] = Vector.zero).
  { rewrite (combined_isolated this 0 [this] Hn eq_refl).
    apply direction_same. }
  split; [exact Hc |].
  assert (Hh : fst (Biod.calculateNewHeading this 0 [this]) = Vector.zero)
    by (apply newHeading_zero; exact Hc).
  rewrite Hh.
  rewrite (move_by_angle _ Vector.zero (Vector.mk 1 0))
    by (rewrite toDegrees_zero, toDegrees_east; reflexivity).
  unfold Biod.move. simpl Biod.heading.
  change (Biod.turnedAngle _ (Vector.mk 1 0))
    with (Biod.turnedAngle (heads (biodAt 0 0) (Vector.mk 0 1)) (Vector.mk 1 0)).
  rewrite turnedAngle_north_east.
  unfold Vector.fromDegrees, Vector.fromAngle.
  intros E. injection E as Ex Ey.
  pose proof PI_bounds as HPI.
  assert (Hcos : 0 < cos ((PI / 2 * Vector.radsToDegs - 10) * Vector.degsToRads)).
  { apply cos_gt_0; unfold Vector.radsToDegs, Vector.degsToRads; lra. }
  lra.
Qed.

(** Normalization never divides by zero and never takes the root of a
    negative number: with these operations tracked it gives the vector
    that [normalize] gives. *)
Lemma normalize_finite (v : Vector.t) :
  Vector.finiteNormalize v = Some (Vector.normalize v).
Proof.
  unfold Vector.finiteNormalize, Vector.finiteLength, Vector.normalize,
    Vector.length, Js.finiteSqrt, Js.finiteDiv.
  destruct v as [vx vy]. simpl Vector.x. simpl Vector.y.
  destruct (Rlt_dec (vx * vx + vy * vy) 0) as [H | _]; [nra |].
  destruct (Req_dec_T (sqrt (vx * vx + vy * vy)) 0) as [E | _];
    reflexivity.
Qed.

(** C3, amended: whenever the combined steering vector is the zero vector,
    [calculateNewHeading] returns the zero vector and [move] treats it
    exactly as the desired heading [(1, 0)] of angle 0, so that the biod,
    when its turn speed is not negative, keeps its previous heading for
    that tick when that heading is [(1, 0)]; normalization of the zero
    vector returns the zero vector unchanged, and no NaN or Infinity is
    produced by heading normalization: it takes no root of a negative
    number and divides by the length only when that is not zero, which
    gives a vector of length one. *)
Theorem zero_steering_heads_east
    (this : Biod.t) (self : nat) (flock : list Biod.t) :
  Biod.combined this self flock = Vector.mk 0 0 ->
  let newHeading := fst (Biod.calculateNewHeading this self flock) in
  let this' := snd (Biod.calculateNewHeading this self flock) in
  newHeading = Vector.mk 0 0
  /\ Biod.move this' newHeading = Biod.move this' (Vector.mk 1 0)
  /\ (0 <= Biod.turnSpeed this -> Biod.heading this = Vector.mk 1 0 ->
      Biod.heading (Biod.move this' newHeading) = Biod.heading this)
  /\ Vector.normalize (Vector.mk 0 0) = Vector.mk 0 0
  /\ (forall v, Vector.finiteNormalize v = Some (Vector.normalize v))
  /\ Vector.finiteNormalize (Biod.averaged this self flock) = Some newHeading
  /\ (forall v, Vector.length v = 0 -> Vector.normalize v = v)
  /\ (forall v, Vector.length v <> 0 ->
        Vector.normalize v
        = Vector.mk (Vector.x v / Vector.length v)
                    (Vector.y v / Vector.length v)
        /\ Vector.length (Vector.normalize v) = 1).
Proof.
  intros Hc newHeading this'.
  assert (Hh : newHeading = Vector.mk 0 0).
  { unfold newHeading. apply (newHeading_zero this self flock). exact Hc. }
  assert (Hm : Biod.move this' newHeading = Biod.move this' (Vector.mk 1 0)).
  { rewrite Hh. apply move_by_angle.
    change (Vector.mk 0 0) with Vector.zero.
    rewrite toDegrees_zero, toDegrees_east. reflexivity. }
  split; [exact Hh |]. split; [exact Hm |].
  split.
  { intros Hts Hhead. rewrite Hm. unfold Biod.move. simpl Biod.heading.
    rewrite (turnedAngle_east this') by assumption.
    rewrite fromDegrees_0. symmetry. exact Hhead. }
  split; [apply normalize_zero |].
  split; [exact normalize_finite |].
  split; [rewrite normalize_finite; reflexivity |].
  split; [apply normalize_fixed |].
  intros v Hv. split; [| apply normalize_unit; exact Hv].
  unfold Vector.normalize.
  destruct (Req_dec_T (Vector.length v) 0) as [E | _];
    [contradiction | reflexivity].
Qed.

Lemma zero_steering_heads_east_witness :
  Biod.combined (biodAt 0 0) 0 [biodAt 0 0] = Vector.mk 0 0
  /\ 0 <= Biod.turnSpeed (biodAt 0 0)
  /\ Biod.heading (biodAt 0 0) = Vector.mk 1 0
  /\ fst (Biod.calculateNewHeading (biodAt 0 0) 0 [biodAt 0 0])
     = Vector.mk 0 0
  /\ Biod.heading
       (Biod.move (snd (Biod.calculateNewHeading (biodAt 0 0) 0 [biodAt 0 0]))
                  (fst (Biod.calculateNewHeading (biodAt 0 0) 0 [biodAt 0 0])))
     = Vector.mk 1 0
  /\ Vector.finiteNormalize (Biod.averaged (biodAt 0 0) 0 [biodAt 0 0])
     = Some (Vector.mk 0 0).
Proof.
  assert (Hn : Biod.neighbors (biodAt 0 0) 0 [biodAt 0 0] = []).
  { unfold Biod.neighbors. simpl. rewrite sees_self. reflexivity. }
  assert (Hc : Biod.combined (biodAt 0 0) 0 [biodAt 0 0] = Vector.mk 0 0).
  { rewrite (combined_isolated _ 0 _ Hn eq_refl). apply direction_same. }
  assert (Hts : 0 <= Biod.turnSpeed (biodAt 0 0)) by (simpl; lra).
  destruct (zero_steering_heads_east (biodAt 0 0) 0 [biodAt 0 0] Hc)
    as (Hh & _ & Hkeep & _ & _ & Hfin & _).
  split; [exact Hc |]. split; [exact Hts |]. split; [reflexivity |].
  split; [exact Hh |].
  split; [exact (Hkeep Hts eq_refl) |].
  rewrite Hfin. rewrite Hh. reflexivity.
Defined.

(** ** Who sees whom *)

Section Sight.

Lemma leb_true (a b : R) : a <= b -> Js.leb a b = true.
Proof.
  intros H. unfold Js.leb. destruct (Rle_dec a b); [reflexivity | lra].
Qed.

Lemma leb_false (a b : R) : b < a -> Js.leb a b = false.
Proof.
  intros H. unfold Js.leb. destruct (Rle_dec a b); [lra | reflexivity].
Qed.

Lemma ltb_true (a b : R) : a < b -> Js.ltb a b = true.
Proof.
  intros H. unfold Js.ltb. destruct (Rlt_dec a b); [reflexivity | lra].
Qed.

Lemma ltb_false (a b : R) : b <= a -> Js.ltb a b = false.
Proof.
  intros H. unfold Js.ltb. destruct (Rlt_dec a b); [lra | reflexivity].
Qed.

Lemma cos_unit_pos (u : R) : -1 <= u <= 1 -> 0 < cos u.
Proof.
  intros H. pose proof PI_bounds as HPI. apply cos_gt_0; lra.
Qed.

(** The distance of two points, from the squares. *)
Lemma distance_value (p q : Vector.t) (d : R) :
  0 <= d ->
  (Vector.x q - Vector.x p) * (Vector.x q - Vector.x p)
  + (Vector.y q - Vector.y p) * (Vector.y q - Vector.y p) = d * d ->
  Vector.getDistance p q = d.
Proof.
  intros Hd E. unfold Vector.getDistance.
  apply sqrt_lem_1; [nra | exact Hd |]. rewrite <- E. ring.
Qed.

(** The direction from a point to a point to its left or to its right. *)
Lemma direction_west (a b c : R) :
  b < a ->
  Vector.getDirectionTo (Vector.mk a c) (Vector.mk b c) = Vector.mk (-1) 0.
Proof.
  intros H. rewrite direction_horizontal by lra.
  rewrite Rabs_left by lra. f_equal. field. lra.
Qed.

Lemma direction_east (a b c : R) :
  a < b ->
  Vector.getDirectionTo (Vector.mk a c) (Vector.mk b c) = Vector.mk 1 0.
Proof.
  intros H. rewrite direction_horizontal by lra.
  rewrite Rabs_pos_eq by lra. f_equal. field. lra.
Qed.

End Sight.

(** C1, on the source: a biod at [(100, 100)] that heads east, and a second
    biod at [(90, 100)], exactly behind it: the dot product of the heading
    with the direction to the second biod is -1, and the second biod is
    selected as a visible neighbor. *)
Theorem neighbor_behind_is_selected :
  let a := biodAt 100 100 in
  let b := biodAt 90 100 in
  Spec.dotProduct (Biod.heading a)
    (Vector.getDirectionTo (Biod.position a) (Biod.position b)) = -1
  /\ Biod.neighbors a 0 [a; b] = [b].
Proof.
  cbv zeta.
  assert (Hd : Vector.getDirectionTo (Biod.position (biodAt 100 100))
                 (Biod.position (biodAt 90 100)) = Vector.mk (-1) 0).
  { simpl. apply direction_west. lra. }
  split.
  - rewrite Hd. unfold Spec.dotProduct. simpl. ring.
  - unfold Biod.neighbors. simpl Biod.findNeighbors. rewrite sees_self.
    assert (Hs : Biod.sees (biodAt 100 100) 0 1 (biodAt 90 100) = true).
    { unfold Biod.sees, Biod.cosDot. rewrite Hd. simpl.
      rewrite distance_horizontal.
      rewrite leb_true by (rewrite Rabs_pos_eq; lra).
      rewrite ltb_true by (apply cos_unit_pos; unfold Vector.dot; simpl; lra).
      reflexivity. }
    rewrite Hs. reflexivity.
Qed.

(** C2, on the source: for a biod at [(21, 40)] and its visible neighbor at
    [(31, 40)], ten units away and within the proximity radius of 40, the
    source measures the distance from the neighbor to the unit direction
    vector [(1, 0)], 50, and the force is 1000; the radial point of the
    specification is [(61, 40)], at distance 30, and its force is 600.  The
    averaged repulsion of the source is [(-1000, 0)]. *)
Theorem crowding_force_measures_to_direction :
  let a := biodAt 21 40 in
  let b := biodAt 31 40 in
  Biod.neighbors a 0 [a; b] = [b]
  /\ Biod.crowds a b = true
  /\ Biod.crowdingForce a b = 1000
  /\ Spec.crowdingForce a b = 600
  /\ Biod.crowding a [b] = Vector.mk (-1000) 0.
Proof.
  cbv zeta.
  assert (Hab : Vector.getDirectionTo (Biod.position (biodAt 21 40))
                  (Biod.position (biodAt 31 40)) = Vector.mk 1 0).
  { simpl. apply direction_east. lra. }
  assert (Hba : Vector.getDirectionTo (Biod.position (biodAt 31 40))
                  (Biod.position (biodAt 21 40)) = Vector.mk (-1) 0).
  { simpl. apply direction_west. lra. }
  assert (Hdist : Vector.getDistance (Biod.position (biodAt 31 40))
                    (Biod.position (biodAt 21 40)) = 10).
  { simpl. rewrite distance_horizontal. rewrite Rabs_left; lra. }
  assert (Hcrowds : Biod.crowds (biodAt 21 40) (biodAt 31 40) = true).
  { unfold Biod.crowds. rewrite Hdist. apply leb_true. simpl. lra. }
  assert (Hforce : Biod.crowdingForce (biodAt 21 40) (biodAt 31 40) = 1000).
  { unfold Biod.crowdingForce. rewrite Hab.
    rewrite (distance_value _ _ 50) by (simpl; lra).
    simpl.
    destruct (Rlt_dec 50 (7 + 7 * 0.1)) as [H | _]; lra. }
  split; [| split; [exact Hcrowds | split; [exact Hforce | split]]].
  - unfold Biod.neighbors. simpl Biod.findNeighbors. rewrite sees_self.
    assert (Hs : Biod.sees (biodAt 21 40) 0 1 (biodAt 31 40) = true).
    { unfold Biod.sees, Biod.cosDot. rewrite Hab, Hdist.
      rewrite leb_true by (simpl; lra).
      rewrite ltb_true by (apply cos_unit_pos; unfold Vector.dot; simpl; lra).
      reflexivity. }
    rewrite Hs. reflexivity.
  - unfold Spec.crowdingForce, Spec.radialPoint. rewrite Hab, Hdist.
    rewrite (distance_value _ _ 30) by (simpl; lra).
    simpl.
    destruct (Rlt_dec 10 (7 * 1.1)) as [H | _]; lra.
  - unfold Biod.crowding. simpl fold_left. unfold Biod.addNeighbor.
    rewrite Hcrowds, Hforce, Hba. simpl.
    unfold Biod.divideNonZero. simpl.
    destruct (Req_dec_T (0 + -1 * 1000) 0) as [H | _]; [lra |].
    destruct (Req_dec_T (0 + 0 * 1000) 0) as [_ | H]; [| lra].
    f_equal; lra.
Qed.

(** C7, on the source: a predator at [(100, 100)] that heads east turns
    toward a biod at [(50, 100)], exactly behind it (the dot product of its
    heading with the direction to the biod is -1), and does not keep its
    heading; and a biod at distance 200.5, beyond the sight radius of 200,
    is taken as the victim. *)
Theorem predator_chases_biod_behind :
  let p := predatorAt 100 100 in
  let b := biodAt 50 100 in
  let far := biodAt 300.5 100 in
  Spec.dotProduct (Predator.heading p)
    (Vector.getDirectionTo (Predator.position p) (Biod.position b)) = -1
  /\ Predator.calculateNewHeading p [b] = Vector.mk (-1) 0
  /\ Predator.calculateNewHeading p [b] <> Predator.heading p
  /\ Predator.sightRadius p
     < Vector.getDistance (Biod.position far) (Predator.position p)
  /\ Predator.findVictim p [far] = Some far.
Proof.
  cbv zeta.
  assert (Hd : Vector.getDirectionTo (Predator.position (predatorAt 100 100))
                 (Biod.position (biodAt 50 100)) = Vector.mk (-1) 0).
  { simpl. apply direction_west. lra. }
  assert (Hdist : Vector.getDistance (Biod.position (biodAt 50 100))
                    (Predator.position (predatorAt 100 100)) = 50).
  { simpl. rewrite distance_horizontal. rewrite Rabs_pos_eq; lra. }
  assert (Hc : Predator.calculateNewHeading (predatorAt 100 100)
                 [biodAt 50 100] = Vector.mk (-1) 0).
  { unfold Predator.calculateNewHeading, Predator.findVictim. simpl fold_left.
    unfold Predator.scan, Predator.cosDot. rewrite Hdist, Hd. simpl.
    destruct (Rlt_dec 50 (200 + 1)) as [_ | H]; [| lra].
    destruct (Rlt_dec 0 (cos (Vector.dot (Vector.mk 1 0) (Vector.mk (-1) 0))))
      as [_ | H].
    - simpl. apply direction_west. lra.
    - exfalso. apply H. apply cos_unit_pos. unfold Vector.dot. simpl. lra. }
  assert (Hfar : Vector.getDistance (Biod.position (biodAt 300.5 100))
                   (Predator.position (predatorAt 100 100)) = 200.5).
  { simpl. rewrite distance_horizontal. rewrite Rabs_left; lra. }
  split; [rewrite Hd; unfold Spec.dotProduct; simpl; ring |].
  split; [exact Hc |].
  split; [rewrite Hc; simpl; intros E; injection E as E; lra |].
  split; [rewrite Hfar; simpl; lra |].
  unfold Predator.findVictim. simpl fold_left.
  unfold Predator.scan, Predator.cosDot. rewrite Hfar.
  replace (Vector.getDirectionTo (Predator.position (predatorAt 100 100))
             (Biod.position (biodAt 300.5 100)))
    with (Vector.mk 1 0) by (simpl; symmetry; apply direction_east; lra).
  simpl.
  destruct (Rlt_dec 200.5 (200 + 1)) as [_ | H]; [| lra].
  destruct (Rlt_dec 0 (cos (Vector.dot (Vector.mk 1 0) (Vector.mk 1 0))))
    as [_ | H]; [reflexivity |].
  exfalso. apply H. apply cos_unit_pos. unfold Vector.dot. simpl. lra.
Qed.

(** ** Predation *)

Section Predation.

Variable predators : list Predator.t.

Lemma bites_spec (p : Predator.t) (b : Biod.t) :
  Flock.bites p b = true
  <-> Vector.getDistance (Biod.position b) (Predator.position p)
      < Rmax (Biod.radius b) (Predator.radius p).
Proof.
  unfold Flock.bites, Js.ltb.
  destruct (Rlt_dec _ _); split; intros H; try reflexivity;
    try discriminate; try assumption; contradiction.
Qed.

Lemma isDead_spec (b : Biod.t) :
  Flock.isDead b predators = true
  <-> exists p, In p predators
        /\ Vector.getDistance (Biod.position b) (Predator.position p)
           < Rmax (Biod.radius b) (Predator.radius p).
Proof.
  induction predators as [| q rest IH]; simpl.
  - split; [discriminate | intros [p [[] _]]].
  - destruct (Flock.bites q b) eqn:Hq.
    + split; [| reflexivity]. intros _. exists q.
      split; [left; reflexivity | apply bites_spec; exact Hq].
    + rewrite IH. split.
      * intros [p [Hin Hp]]. exists p. split; [right; exact Hin | exact Hp].
      * intros [p [[E | Hin] Hp]].
        -- subst p. apply bites_spec in Hp. congruence.
        -- exists p. split; assumption.
Qed.

Lemma killEaten_none (flock : list Biod.t) :
  (forall b, In b flock -> Flock.isDead b predators = false) ->
  Flock.killEaten flock predators = flock.
Proof.
  induction flock as [| a rest IH]; intros H; simpl; [reflexivity |].
  rewrite (H a) by (left; reflexivity).
  f_equal. apply IH. intros b Hb. apply H. right. exact Hb.
Qed.

Lemma killEaten_first (flock : list Biod.t) (b : Biod.t) :
  In b flock -> Flock.isDead b predators = true ->
  exists before dead after,
    flock = before ++ dead :: after
    /\ (forall c, In c before -> Flock.isDead c predators = false)
    /\ Flock.isDead dead predators = true
    /\ Flock.killEaten flock predators = before ++ after.
Proof.
  induction flock as [| a rest IH]; intros Hin Hb; [destruct Hin |].
  simpl. destruct (Flock.isDead a predators) eqn:Ha.
  - exists [], a, rest. repeat split; try reflexivity; try assumption.
    intros c [].
  - destruct Hin as [E | Hin]; [subst a; congruence |].
    destruct (IH Hin Hb) as (before & dead & after & E & Hbefore & Hd & Hk).
    exists (a :: before), dead, after. simpl.
    split; [rewrite E; reflexivity |].
    split; [intros c [Ec | Hc]; [subst c; exact Ha | apply Hbefore, Hc] |].
    split; [exact Hd | rewrite Hk; reflexivity].
Qed.

Lemma killEaten_length (flock : list Biod.t) :
  (List.length flock - 1 <= List.length (Flock.killEaten flock predators)
   <= List.length flock)%nat.
Proof.
  induction flock as [| a rest IH]; simpl; [lia |].
  destruct (Flock.isDead a predators); simpl; lia.
Qed.

End Predation.

(** The later phases of a tick keep the number of biods. *)
Section Counting.

Lemma update_length (e : Emitter.t) (flock : list Biod.t) :
  List.length (Emitter.update e flock) = List.length flock.
Proof.
  induction flock as [| b rest IH]; simpl; [reflexivity | now rewrite IH].
Qed.

Lemma updateEmitters_length (es : list Emitter.t) (flock : list Biod.t) :
  List.length (Flock.updateEmitters es flock) = List.length flock.
Proof.
  revert flock. induction es as [| e rest IH]; intros flock; simpl;
    [reflexivity |].
  rewrite IH. apply update_length.
Qed.

Lemma updateMouse_length (m : Flock.mouse) (flock : list Biod.t) :
  List.length (Flock.updateMouse m flock) = List.length flock.
Proof.
  unfold Flock.updateMouse.
  destruct (Flock.mouseEmitter m); [| reflexivity].
  destruct (Flock.mouseIsDown m); [apply update_length | reflexivity].
Qed.

Lemma movePredators_length
    (ps : list Predator.t) (hs : list Vector.t) (flock : list Biod.t) :
  List.length (snd (Flock.movePredators ps hs flock)) = List.length flock.
Proof.
  revert hs flock. induction ps as [| p rest IH]; intros hs flock; simpl;
    [reflexivity |].
  destruct hs as [| h hs]; simpl; [reflexivity |].
  specialize (IH hs (Emitter.update (Predator.emitter (Predator.step p h))
                       flock)).
  destruct (Flock.movePredators rest hs _) as [rest' flock'']. simpl in *.
  rewrite IH. apply update_length.
Qed.

Lemma setAt_length {A : Type} (i : nat) (v : A) (l : list A) :
  List.length (Js.setAt i v l) = List.length l.
Proof.
  revert i. induction l as [| a rest IH]; intros [| k]; simpl;
    try reflexivity.
  now rewrite IH.
Qed.

Lemma headingsFrom_length (todo i : nat) (flock : list Biod.t) :
  List.length (snd (Flock.headingsFrom todo i flock)) = List.length flock.
Proof.
  revert i flock. induction todo as [| k IH]; intros i flock; simpl;
    [reflexivity |].
  destruct (nth_error flock i) as [b |]; [| reflexivity].
  specialize (IH (S i)
    (Js.setAt i (snd (Biod.calculateNewHeading b i flock)) flock)).
  unfold Biod.calculateNewHeading in *. simpl in *.
  destruct (Flock.headingsFrom k (S i) _) as [hs flock']. simpl in *.
  rewrite IH. apply setAt_length.
Qed.

Lemma moveBiods_length (flock : list Biod.t) (hs : list Vector.t) :
  List.length (Flock.moveBiods flock hs) = List.length flock.
Proof.
  revert hs. induction flock as [| b rest IH]; intros hs; simpl;
    [reflexivity |].
  destruct hs as [| h hs]; simpl; [reflexivity | now rewrite IH].
Qed.

(** After a tick the flock has as many biods as the predation left. *)
Lemma update_count (m : Flock.mouse) (this : Flock.t) :
  List.length (Flock.flock (Flock.update m this))
  = List.length (Flock.killEaten (Flock.flock this) (Flock.predators this)).
Proof.
  unfold Flock.update.
  set (flock3 := Flock.updateMouse m _).
  pose proof (movePredators_length (Flock.predators this)
                (Flock.newPredHeadings (Flock.predators this) flock3) flock3)
    as Hm.
  destruct (Flock.movePredators _ _ flock3) as [predators' flock4].
  simpl in Hm.
  pose proof (headingsFrom_length (List.length flock4) 0 flock4) as Hh.
  unfold Flock.newHeadings.
  destruct (Flock.headingsFrom _ 0 flock4) as [headings flock5].
  simpl in *. rewrite moveBiods_length, Hh, Hm. unfold flock3.
  rewrite updateMouse_length, updateEmitters_length. reflexivity.
Qed.

End Counting.

(** C6: the predation phase removes a biod exactly when some predator is
    closer to it than the larger of the two radii, and only the first such
    biod of the flock: a flock without such a biod is left as it is,
    otherwise the first such biod is taken out and the biods before and
    after it stay, so that at most one biod goes per tick; with
    one predator at [(0, 0)] of radius 10 and one biod at [(5, 0)] of radius
    7 the biod is removed and the tick leaves one biod less. *)
Theorem predation_removes_first_dead
    (flock : list Biod.t) (predators : list Predator.t) :
  (forall b,
     Flock.isDead b predators = true
     <-> exists p, In p predators
           /\ Vector.getDistance (Biod.position b) (Predator.position p)
              < Rmax (Biod.radius b) (Predator.radius p))
  /\ ((forall b, In b flock -> Flock.isDead b predators = false) ->
      Flock.killEaten flock predators = flock)
  /\ (forall b, In b flock -> Flock.isDead b predators = true ->
      exists before dead after,
        flock = before ++ dead :: after
        /\ (forall c, In c before -> Flock.isDead c predators = false)
        /\ Flock.isDead dead predators = true
        /\ Flock.killEaten flock predators = before ++ after)
  /\ (List.length flock - 1 <= List.length (Flock.killEaten flock predators)
      <= List.length flock)%nat
  /\ (forall m emitters,
        List.length
          (Flock.flock (Flock.update m (Flock.mk flock emitters predators)))
        = List.length (Flock.killEaten flock predators))
  /\ (let p := predatorAt 0 0 in
      let b := biodAt 5 0 in
      Predator.radius p = 10 /\ Biod.radius b = 7
      /\ Vector.getDistance (Biod.position b) (Predator.position p) = 5
      /\ Flock.killEaten [b] [p] = []
      /\ forall m emitters,
           S (List.length
                (Flock.flock (Flock.update m (Flock.mk [b] emitters [p]))))
           = List.length [b]).
Proof.
  split; [apply isDead_spec |].
  split; [apply killEaten_none |].
  split; [apply killEaten_first |].
  split; [apply killEaten_length |].
  split; [intros m emitters; apply (update_count m) |].
  cbv zeta.
  assert (Hd : Vector.getDistance (Biod.position (biodAt 5 0))
                 (Predator.position (predatorAt 0 0)) = 5).
  { simpl. rewrite distance_horizontal. rewrite Rabs_left; lra. }
  assert (Hk : Flock.killEaten [biodAt 5 0] [predatorAt 0 0] = []).
  { simpl. unfold Flock.bites. rewrite Hd.
    rewrite ltb_true; [reflexivity |]. simpl.
    apply Rlt_le_trans with 10; [lra | apply Rmax_r]. }
  split; [reflexivity |]. split; [reflexivity |].
  split; [exact Hd |]. split; [exact Hk |].
  intros m emitters. rewrite (update_count m). simpl Flock.flock.
  simpl Flock.predators. rewrite Hk. reflexivity.
Qed.

(** ** Emitters *)

Section Emitters.

Variable this : Emitter.t.

Lemma influenceStrength_max (distance : R) :
  Emitter.influenceStrength this distance
  = Rmax 0 (Emitter.strength this - Emitter.subAmount this distance).
Proof.
  unfold Emitter.influenceStrength, Rmax.
  destruct (Rlt_dec _ 0); destruct (Rle_dec 0 _); lra.
Qed.

Lemma subAmount_kind (kind : Spec.falloff) (distance : R) :
  Emitter.functionType this = Spec.functionType kind ->
  Emitter.subAmount this distance
  = Spec.falloffAmount kind (Emitter.strength this) distance.
Proof.
  intros E. unfold Emitter.subAmount. rewrite E.
  destruct kind; simpl; try reflexivity.
  f_equal. ring.
Qed.

Lemma update_nth (flock : list Biod.t) (i : nat) :
  nth_error (Emitter.update this flock) i
  = option_map (Emitter.affect this) (nth_error flock i).
Proof.
  revert i. induction flock as [| b rest IH]; intros [| k]; simpl;
    try reflexivity.
  apply IH.
Qed.

Lemma scale_zero (k : R) : Vector.scale Vector.zero k = Vector.zero.
Proof. unfold Vector.scale, Vector.zero. simpl. f_equal; ring. Qed.

Lemma length_of_scaled_direction (p q : Vector.t) (k : R) :
  0 <= k -> p <> q ->
  Vector.length (Vector.scale (Vector.getDirectionTo p q) k) = k.
Proof.
  intros Hk H. rewrite length_scaled by exact Hk.
  rewrite direction_length by exact H. ring.
Qed.

End Emitters.

(** C8, as the source has it: a biod that sits on the position of a
    repulsive linear field of strength 50 and radius 30 is in range and
    gets one contribution, the zero vector, whose magnitude is not
    [max(0, 50 - min(50, 0))]. *)
Lemma influence_on_field_position_is_zero :
  let e := Emitter.mk (Vector.mk 100 100) 50 30 "linear" true in
  let b := biodAt 100 100 in
  let distance := Vector.getDistance (Biod.position b) (Emitter.position e) in
  Emitter.inRange e b = true
  /\ Biod.emitterInfluences (Emitter.affect e b) = [Emitter.influence e b]
  /\ Emitter.influence e b = Vector.mk 0 0
  /\ Vector.length (Emitter.influence e b)
     <> Rmax 0 (Emitter.strength e
                - Spec.falloffAmount Spec.Linear (Emitter.strength e) distance).
Proof.
  cbv zeta.
  set (e := Emitter.mk (Vector.mk 100 100) 50 30 "linear" true).
  assert (Hd : Vector.getDistance (Biod.position (biodAt 100 100))
                 (Emitter.position e) = 0).
  { simpl. rewrite distance_horizontal.
    replace (100 - 100) with 0 by ring. apply Rabs_R0. }
  assert (Hr : Emitter.inRange e (biodAt 100 100) = true).
  { unfold Emitter.inRange. rewrite Hd. apply leb_true. simpl. lra. }
  assert (Hi : Emitter.influence e (biodAt 100 100) = Vector.mk 0 0).
  { unfold Emitter.influence. simpl Emitter.repel. cbv iota.
    simpl Emitter.position. simpl Biod.position.
    rewrite direction_same. apply scale_zero. }
  split; [exact Hr |].
  split; [unfold Emitter.affect; rewrite Hr; reflexivity |].
  split; [exact Hi |].
  rewrite Hi, Hd. change (Vector.mk 0 0) with Vector.zero.
  rewrite length_zero. simpl.
  rewrite Rmin_right by lra. rewrite Rmax_right by lra. lra.
Qed.

(** C8, amended: an emitter leaves a biod that is farther away than its
    radius as it is, and pushes exactly one contribution onto a biod within
    the radius: the direction from the biod to the field when the field
    attracts, from the field to the biod when it repels, scaled by
    [max(0, strength - falloffAmount)], with the falloff amount
    [min(strength, distance)], [max(0, ln(distance))] or
    [max(0, distance^2)] of the kind of the field.  For a biod that is not
    on the position of the field this direction has length one and the
    contribution has that magnitude; for a biod on the position of the field
    the contribution is the zero vector.  A repulsive linear field at
    [(100, 100)] of strength 50 and radius 30 pushes [(40, 0)], of magnitude
    40 and pointing away from the field, onto a biod at [(110, 100)]. *)
Theorem emitter_contribution :
  (forall (this : Emitter.t) (kind : Spec.falloff) (flock : list Biod.t)
          (i : nat) (b : Biod.t),
     nth_error flock i = Some b ->
     Emitter.functionType this = Spec.functionType kind ->
     let distance :=
       Vector.getDistance (Biod.position b) (Emitter.position this) in
     let magnitude :=
       Rmax 0 (Emitter.strength this
               - Spec.falloffAmount kind (Emitter.strength this) distance) in
     let direction :=
       if Emitter.repel this
       then Vector.getDirectionTo (Emitter.position this) (Biod.position b)
       else Vector.getDirectionTo (Biod.position b) (Emitter.position this) in
     (Emitter.radius this < distance ->
      nth_error (Emitter.update this flock) i = Some b)
     /\ (distance <= Emitter.radius this ->
         nth_error (Emitter.update this flock) i
         = Some (Emitter.push b (Vector.scale direction magnitude))
         /\ Biod.emitterInfluences
              (Emitter.push b (Vector.scale direction magnitude))
            = Biod.emitterInfluences b ++ [Vector.scale direction magnitude]
         /\ (Biod.position b <> Emitter.position this ->
             Vector.length direction = 1
             /\ Vector.length (Vector.scale direction magnitude) = magnitude)
         /\ (Biod.position b = Emitter.position this ->
             Vector.scale direction magnitude = Vector.mk 0 0)))
  /\ (let e := Emitter.mk (Vector.mk 100 100) 50 30 "linear" true in
      let b := biodAt 110 100 in
      Biod.emitterInfluences (Emitter.affect e b) = [Vector.mk 40 0]
      /\ Vector.mk 40 0
         = Vector.scale
             (Vector.getDirectionTo (Emitter.position e) (Biod.position b)) 40
      /\ Vector.length (Vector.mk 40 0) = 40).
Proof.
  split.
  - intros this kind flock i b Hi Hk distance magnitude direction.
    assert (Hm : 0 <= magnitude) by apply Rmax_l.
    assert (Hinf : Emitter.influence this b = Vector.scale direction magnitude).
    { unfold Emitter.influence, direction, magnitude, distance.
      rewrite influenceStrength_max, (subAmount_kind this kind) by exact Hk.
      destruct (Emitter.repel this); reflexivity. }
    split.
    + intros Hfar. rewrite update_nth, Hi. simpl.
      unfold Emitter.affect, Emitter.inRange.
      rewrite leb_false by exact Hfar. reflexivity.
    + intros Hnear. split.
      { rewrite update_nth, Hi. simpl.
        unfold Emitter.affect, Emitter.inRange.
        rewrite leb_true by exact Hnear. rewrite Hinf. reflexivity. }
      split; [reflexivity |].
      split.
      * intros Hne.
        assert (Hdir : Vector.length direction = 1).
        { unfold direction. destruct (Emitter.repel this);
            apply direction_length; congruence. }
        split; [exact Hdir |].
        rewrite length_scaled by exact Hm. rewrite Hdir. ring.
      * intros Heq. unfold direction. rewrite Heq.
        destruct (Emitter.repel this); rewrite direction_same;
          apply scale_zero.
  - cbv zeta.
    set (e := Emitter.mk (Vector.mk 100 100) 50 30 "linear" true).
    assert (Hd : Vector.getDistance (Biod.position (biodAt 110 100))
                   (Emitter.position e) = 10).
    { simpl. rewrite distance_horizontal. rewrite Rabs_left; lra. }
    assert (Hdir : Vector.getDirectionTo (Emitter.position e)
                     (Biod.position (biodAt 110 100)) = Vector.mk 1 0).
    { simpl. apply direction_east. lra. }
    split; [| split].
    + unfold Emitter.affect, Emitter.inRange. rewrite Hd.
      rewrite leb_true by (simpl; lra).
      unfold Emitter.push. simpl Biod.emitterInfluences. simpl app.
      unfold Emitter.influence. simpl Emitter.repel. cbv iota.
      rewrite Hdir, Hd, influenceStrength_max.
      rewrite (subAmount_kind e Spec.Linear) by reflexivity. simpl.
      rewrite Rmin_right by lra. rewrite Rmax_right by lra.
      unfold Vector.scale. simpl. do 2 f_equal; ring.
    + rewrite Hdir. unfold Vector.scale. simpl. f_equal; ring.
    + unfold Vector.length. simpl.
      apply sqrt_lem_1; [nra | lra | ring].
Qed.

(** ** The order of a tick *)

Section Snapshot.

Variable this : Biod.t.
Variable self : nat.

Lemma sees_kinematics (i : nat) (o1 o2 : Biod.t) :
  Spec.sameKinematics o1 o2 ->
  Biod.sees this self i o1 = Biod.sees this self i o2.
Proof.
  intros [Hp _]. unfold Biod.sees, Biod.cosDot. rewrite Hp. reflexivity.
Qed.

Lemma findNeighbors_kinematics (i : nat) (fl1 fl2 : list Biod.t) :
  Forall2 Spec.sameKinematics fl1 fl2 ->
  Forall2 Spec.sameKinematics
    (Biod.findNeighbors this self i fl1) (Biod.findNeighbors this self i fl2).
Proof.
  intros H. revert i. induction H as [| o1 o2 r1 r2 Ho Hr IH]; intros i;
    simpl; [constructor |].
  rewrite (sees_kinematics i o1 o2 Ho).
  destruct (Biod.sees this self i o2); [constructor; [exact Ho |] |];
    apply IH.
Qed.

Lemma addNeighbor_kinematics (s : Biod.sums) (n1 n2 : Biod.t) :
  Spec.sameKinematics n1 n2 ->
  Biod.addNeighbor this s n1 = Biod.addNeighbor this s n2.
Proof.
  intros [Hp Hh].
  unfold Biod.addNeighbor, Biod.crowds, Biod.crowdingForce.
  rewrite Hp, Hh. reflexivity.
Qed.

Lemma sums_kinematics (ns1 ns2 : list Biod.t) :
  Forall2 Spec.sameKinematics ns1 ns2 ->
  forall s,
    fold_left (Biod.addNeighbor this) ns1 s
    = fold_left (Biod.addNeighbor this) ns2 s.
Proof.
  induction 1 as [| n1 n2 r1 r2 Hn Hr IH]; intros s; simpl; [reflexivity |].
  rewrite (addNeighbor_kinematics s n1 n2 Hn). apply IH.
Qed.

Lemma length_kinematics (ns1 ns2 : list Biod.t) :
  Forall2 Spec.sameKinematics ns1 ns2 ->
  List.length ns1 = List.length ns2.
Proof.
  induction 1; simpl; [reflexivity | now f_equal].
Qed.

(** The heading of a biod depends on the other biods through their
    positions and headings only. *)
Lemma calculateNewHeading_kinematics (fl1 fl2 : list Biod.t) :
  Forall2 Spec.sameKinematics fl1 fl2 ->
  Biod.calculateNewHeading this self fl1
  = Biod.calculateNewHeading this self fl2.
Proof.
  intros H.
  pose proof (findNeighbors_kinematics 0 fl1 fl2 H) as Hn.
  fold (Biod.neighbors this self fl1) in Hn.
  fold (Biod.neighbors this self fl2) in Hn.
  pose proof (sums_kinematics _ _ Hn Biod.noSums) as Hs.
  pose proof (length_kinematics _ _ Hn) as Hl.
  assert (Hcr : Biod.crowding this (Biod.neighbors this self fl1)
                = Biod.crowding this (Biod.neighbors this self fl2))
    by (unfold Biod.crowding; rewrite Hs; reflexivity).
  assert (Hal : Biod.alignment this (Biod.neighbors this self fl1)
                = Biod.alignment this (Biod.neighbors this self fl2))
    by (unfold Biod.alignment; rewrite Hs; reflexivity).
  assert (Hco : Biod.cohesion this (Biod.neighbors this self fl1)
                = Biod.cohesion this (Biod.neighbors this self fl2))
    by (unfold Biod.cohesion; rewrite Hs, Hl; reflexivity).
  unfold Biod.calculateNewHeading, Biod.averaged, Biod.combined,
    Biod.dominant.
  rewrite Hcr, Hal, Hco. reflexivity.
Qed.

End Snapshot.

Section HeadingLoop.

Lemma sameKinematics_refl (l : list Biod.t) :
  Forall2 Spec.sameKinematics l l.
Proof.
  induction l; constructor; [split; reflexivity | assumption].
Qed.

Lemma setAt_kinematics (i : nat) (b' : Biod.t) (cur fl0 : list Biod.t) :
  Forall2 Spec.sameKinematics cur fl0 ->
  (forall b0, nth_error fl0 i = Some b0 -> Spec.sameKinematics b' b0) ->
  Forall2 Spec.sameKinematics (Js.setAt i b' cur) fl0.
Proof.
  intros H. revert i. induction H as [| c f cs fs Hc Hr IH]; intros i Hb;
    [destruct i; constructor |].
  destruct i as [| k]; simpl.
  - constructor; [apply Hb; reflexivity | exact Hr].
  - constructor; [exact Hc | apply IH; exact Hb].
Qed.

Lemma setAt_other {A : Type} (i j : nat) (v : A) (l : list A) :
  i <> j -> nth_error (Js.setAt i v l) j = nth_error l j.
Proof.
  revert i j. induction l as [| a rest IH]; intros [| i] [| j] H; simpl;
    try reflexivity; try congruence.
  apply IH. congruence.
Qed.

Lemma headingsFrom_pass (k i : nat) (flock : list Biod.t) :
  Flock.headingsFrom (S k) i flock
  = match nth_error flock i with
    | None => ([], flock)
    | Some b =>
        let (h, b') := Biod.calculateNewHeading b i flock in
        let (hs, flock') :=
          Flock.headingsFrom k (S i) (Js.setAt i b' flock) in
        (h :: hs, flock')
    end.
Proof. reflexivity. Qed.

(** The first biod loop: whatever the passes before have written into the
    flock, each pass computes the heading that the untouched flock gives,
    and no pass moves or turns a biod. *)
Lemma headingsFrom_snapshot (fl0 : list Biod.t) :
  forall (todo i : nat) (cur : list Biod.t),
    Forall2 Spec.sameKinematics cur fl0 ->
    (forall j, (i <= j)%nat -> nth_error cur j = nth_error fl0 j) ->
    (i + todo = List.length fl0)%nat ->
    fst (Flock.headingsFrom todo i cur)
    = map (Spec.snapshotHeading fl0) (seq i todo)
    /\ Forall2 Spec.sameKinematics (snd (Flock.headingsFrom todo i cur)) fl0.
Proof.
  induction todo as [| k IH]; intros i cur Hkin Hrest Hlen.
  - split; [reflexivity | exact Hkin].
  - rewrite headingsFrom_pass. cbn [seq map].
    assert (Hi : (i < List.length fl0)%nat) by lia.
    destruct (nth_error fl0 i) as [b |] eqn:Hb;
      [| apply nth_error_None in Hb; lia].
    rewrite (Hrest i) by lia. rewrite Hb.
    rewrite (calculateNewHeading_kinematics b i cur fl0 Hkin).
    destruct (Biod.calculateNewHeading b i fl0) as [h b'] eqn:Hcalc.
    assert (Hb' : Spec.sameKinematics b' b).
    { unfold Biod.calculateNewHeading in Hcalc.
      injection Hcalc as _ E. subst b'. split; reflexivity. }
    destruct (IH (S i) (Js.setAt i b' cur)) as [Hhs Hfl].
    + apply setAt_kinematics; [exact Hkin |].
      intros b0 E. rewrite Hb in E. injection E as E. subst b0. exact Hb'.
    + intros j Hj. rewrite setAt_other by lia. apply Hrest. lia.
    + lia.
    + destruct (Flock.headingsFrom k (S i) (Js.setAt i b' cur))
        as [hs flock'].
      cbn [fst snd] in *. split; [| exact Hfl].
      rewrite Hhs. f_equal. unfold Spec.snapshotHeading.
      rewrite Hb, Hcalc. reflexivity.
Qed.

Lemma kinematics_maps (l1 l2 : list Biod.t) :
  Forall2 Spec.sameKinematics l1 l2 ->
  map Biod.position l1 = map Biod.position l2
  /\ map Biod.heading l1 = map Biod.heading l2.
Proof.
  induction 1 as [| a b r1 r2 [Hp Hh] Hr [IHp IHh]]; simpl;
    [split; reflexivity |].
  rewrite Hp, Hh, IHp, IHh. split; reflexivity.
Qed.

Lemma newPredHeadings_map (ps : list Predator.t) (flock : list Biod.t) :
  Flock.newPredHeadings ps flock
  = map (fun p => Predator.calculateNewHeading p flock) ps.
Proof.
  induction ps as [| p rest IH]; simpl; [reflexivity | now rewrite IH].
Qed.

(** The second predator loop moves each predator as the first loop left
    it, by the heading computed for it. *)
Lemma movePredators_steps
    (ps : list Predator.t) (hs : list Vector.t) (flock : list Biod.t) :
  List.length hs = List.length ps ->
  fst (Flock.movePredators ps hs flock)
  = map (fun ph => Predator.step (fst ph) (snd ph)) (combine ps hs).
Proof.
  revert hs flock. induction ps as [| p rest IH]; intros hs flock Hl;
    [reflexivity |].
  destruct hs as [| h hs]; [discriminate |]. simpl.
  specialize (IH hs (Emitter.update (Predator.emitter (Predator.step p h))
                       flock)).
  destruct (Flock.movePredators rest hs _) as [rest' flock''].
  simpl in *. rewrite IH by (injection Hl as Hl; exact Hl). reflexivity.
Qed.

End HeadingLoop.

(** C9: in a tick the headings of all predators are computed, from the
    predators and the flock as they are before any predator moves, before
    the first predator is moved, and each predator is then moved from where
    it was by the heading computed for it; the headings of all biods are
    the headings that the flock as it is before the first biod moves gives,
    the loop that computes them changes no position and no heading, and
    only then each biod is moved by the heading computed for it. *)
Theorem headings_from_one_snapshot (m : Flock.mouse) (this : Flock.t) :
  let flock3 :=
    Flock.updateMouse m
      (Flock.updateEmitters (Flock.emitters this)
         (Flock.killEaten (Flock.flock this) (Flock.predators this))) in
  let predHeadings :=
    map (fun p => Predator.calculateNewHeading p flock3)
        (Flock.predators this) in
  let flock4 :=
    snd (Flock.movePredators (Flock.predators this) predHeadings flock3) in
  Flock.newPredHeadings (Flock.predators this) flock3 = predHeadings
  /\ Flock.predators (Flock.update m this)
     = map (fun ph => Predator.step (fst ph) (snd ph))
           (combine (Flock.predators this) predHeadings)
  /\ fst (Flock.newHeadings flock4) = Spec.snapshotHeadings flock4
  /\ map Biod.position (snd (Flock.newHeadings flock4))
     = map Biod.position flock4
  /\ map Biod.heading (snd (Flock.newHeadings flock4))
     = map Biod.heading flock4
  /\ Flock.flock (Flock.update m this)
     = Flock.moveBiods (snd (Flock.newHeadings flock4))
         (Spec.snapshotHeadings flock4).
Proof.
  intros flock3 predHeadings flock4.
  assert (Hp : Flock.newPredHeadings (Flock.predators this) flock3
               = predHeadings) by apply newPredHeadings_map.
  destruct (headingsFrom_snapshot flock4 (List.length flock4) 0 flock4)
    as [Hhs Hkin];
    [apply sameKinematics_refl | reflexivity | reflexivity |].
  fold (Flock.newHeadings flock4) in Hhs, Hkin.
  fold (Spec.snapshotHeadings flock4) in Hhs.
  destruct (kinematics_maps _ _ Hkin) as [Hpos Hhead].
  split; [exact Hp |].
  assert (Hu : Flock.update m this
               = Flock.mk
                   (Flock.moveBiods (snd (Flock.newHeadings flock4))
                      (fst (Flock.newHeadings flock4)))
                   (Flock.emitters this)
                   (fst (Flock.movePredators (Flock.predators this)
                           predHeadings flock3))).
  { unfold Flock.update. fold flock3. rewrite Hp. unfold flock4.
    destruct (Flock.movePredators (Flock.predators this) predHeadings flock3)
      as [predators' fl4].
    simpl. destruct (Flock.newHeadings fl4) as [headings fl5]. reflexivity. }
  split.
  { rewrite Hu. simpl. apply movePredators_steps.
    unfold predHeadings. apply length_map. }
  split; [exact Hhs |]. split; [exact Hpos |]. split; [exact Hhead |].
  rewrite Hu. simpl. rewrite Hhs. reflexivity.
Qed.

(** ** The theorems at sample inputs *)

Lemma move_position_in_sandbox_witness :
  0 < Vector.x (Biod.sandboxDimensions (biodAt 400 0))
  /\ 0 < Vector.y (Biod.sandboxDimensions (biodAt 400 0))
  /\ 0 < Vector.x (Predator.sandboxDimensions (predatorAt 100 100))
  /\ 0 < Vector.y (Predator.sandboxDimensions (predatorAt 100 100))
  /\ 0 <= Vector.y (Biod.position (Biod.move (biodAt 400 0) (Vector.mk 0 (-1))))
       <= 600
  /\ 0 <= Vector.x
            (Predator.position
               (fst (Predator.move (predatorAt 100 100) (Vector.mk 0 (-1)) [])))
       <= 800.
Proof.
  assert (H1 : 0 < Vector.x (Biod.sandboxDimensions (biodAt 400 0)))
    by (simpl; lra).
  assert (H2 : 0 < Vector.y (Biod.sandboxDimensions (biodAt 400 0)))
    by (simpl; lra).
  assert (H3 : 0 < Vector.x (Predator.sandboxDimensions (predatorAt 100 100)))
    by (simpl; lra).
  assert (H4 : 0 < Vector.y (Predator.sandboxDimensions (predatorAt 100 100)))
    by (simpl; lra).
  destruct (move_position_in_sandbox (biodAt 400 0) (predatorAt 100 100) []
              (Vector.mk 0 (-1)) H1 H2 H3 H4) as [(_ & Hy & Hx & _) _].
  repeat split; try assumption; [apply Hy | apply Hy | apply Hx | apply Hx].
Defined.

Lemma predation_removes_first_dead_witness :
  In (biodAt 5 0) [biodAt 5 0]
  /\ Flock.isDead (biodAt 5 0) [predatorAt 0 0] = true
  /\ exists before dead after,
       [biodAt 5 0] = before ++ dead :: after
       /\ Flock.killEaten [biodAt 5 0] [predatorAt 0 0] = before ++ after.
Proof.
  assert (Hin : In (biodAt 5 0) [biodAt 5 0]) by (left; reflexivity).
  assert (Hd : Flock.isDead (biodAt 5 0) [predatorAt 0 0] = true).
  { simpl. unfold Flock.bites.
    replace (Vector.getDistance (Biod.position (biodAt 5 0))
               (Predator.position (predatorAt 0 0))) with 5.
    - rewrite ltb_true; [reflexivity |]. simpl.
      apply Rlt_le_trans with 10; [lra | apply Rmax_r].
    - simpl. rewrite distance_horizontal. rewrite Rabs_left; lra. }
  split; [exact Hin |]. split; [exact Hd |].
  destruct (predation_removes_first_dead [biodAt 5 0] [predatorAt 0 0])
    as (_ & _ & Hfirst & _).
  destruct (Hfirst (biodAt 5 0) Hin Hd)
    as (before & dead & after & E & _ & _ & Hk).
  exists before, dead, after. split; [exact E | exact Hk].
Defined.

Lemma emitter_contribution_witness :
  let e := Emitter.mk (Vector.mk 100 100) 50 30 "linear" false in
  let b := biodAt 110 100 in
  let distance := Vector.getDistance (Biod.position b) (Emitter.position e) in
  let magnitude :=
    Rmax 0 (Emitter.strength e
            - Spec.falloffAmount Spec.Linear (Emitter.strength e) distance) in
  nth_error [b] 0 = Some b
  /\ Emitter.functionType e = Spec.functionType Spec.Linear
  /\ distance <= Emitter.radius e
  /\ Biod.position b <> Emitter.position e
  /\ Vector.length
       (Vector.scale
          (Vector.getDirectionTo (Biod.position b) (Emitter.position e))
          magnitude) = magnitude.
Proof.
  cbv zeta.
  set (e := Emitter.mk (Vector.mk 100 100) 50 30 "linear" false).
  assert (Hd : Vector.getDistance (Biod.position (biodAt 110 100))
                 (Emitter.position e) <= Emitter.radius e).
  { simpl. rewrite distance_horizontal. rewrite Rabs_left; lra. }
  assert (Hp : Biod.position (biodAt 110 100) <> Emitter.position e).
  { simpl. intros E. injection E as E. lra. }
  split; [reflexivity |]. split; [reflexivity |].
  split; [exact Hd |]. split; [exact Hp |].
  destruct emitter_contribution as [Hgen _].
  destruct (Hgen e Spec.Linear [biodAt 110 100] 0%nat (biodAt 110 100)
              eq_refl eq_refl) as [_ Hnear].
  destruct (Hnear Hd) as (_ & _ & Hlen & _).
  exact (proj2 (Hlen Hp)).
Defined.

(** * Further properties of the code *)

(** ** Vectors *)

Section Segments.

Lemma clamp_range (u : R) : 0 <= Rmin (Rmax 0 u) 1 <= 1.
Proof.
  unfold Rmin, Rmax.
  destruct (Rle_dec 0 u); destruct (Rle_dec _ 1); lra.
Qed.

(** The clamped parameter is the point of [[0, 1]] nearest to [u]. *)
Lemma clamp_nearest (u s : R) :
  0 <= s <= 1 ->
  0 <= (s - Rmin (Rmax 0 u) 1) * (s + Rmin (Rmax 0 u) 1 - 2 * u).
Proof.
  intros Hs. unfold Rmin, Rmax.
  destruct (Rle_dec 0 u) as [H0 | H0]; destruct (Rle_dec _ 1) as [H1 | H1];
    try lra.
  - replace ((s - u) * (s + u - 2 * u)) with (Rsqr (s - u))
      by (unfold Rsqr; ring).
    apply Rle_0_sqr.
  - replace ((s - 1) * (s + 1 - 2 * u)) with ((1 - s) * (2 * u - s - 1))
      by ring.
    apply Rmult_le_pos; lra.
  - replace (s + 0 - 2 * u) with (s - 2 * u) by ring.
    replace (s - 0) with s by ring. apply Rmult_le_pos; lra.
Qed.

Lemma distance_le (p q1 q2 : Vector.t) :
  (Vector.x q1 - Vector.x p) ^ 2 + (Vector.y q1 - Vector.y p) ^ 2
  <= (Vector.x q2 - Vector.x p) ^ 2 + (Vector.y q2 - Vector.y p) ^ 2 ->
  Vector.getDistance p q1 <= Vector.getDistance p q2.
Proof.
  intros H. unfold Vector.getDistance. apply sqrt_le_1_alt. exact H.
Qed.

Lemma eqb_true (a b : R) : Js.eqb a b = true <-> a = b.
Proof.
  unfold Js.eqb. destruct (Req_dec_T a b); split; intros H;
    try reflexivity; try assumption; try discriminate; contradiction.
Qed.

End Segments.

(** X1: [getClosestPointOnLine] returns a point of the segment from [start]
    to [end], and no point of the segment is closer to [this]; when the two
    ends are one point it returns [start]. *)
Theorem closest_point_on_segment (this start end_ : Vector.t) :
  let closest := Vector.getClosestPointOnLine this start end_ in
  let along t :=
    Vector.mk (Vector.x start + t * (Vector.x end_ - Vector.x start))
              (Vector.y start + t * (Vector.y end_ - Vector.y start)) in
  (exists t, 0 <= t <= 1 /\ closest = along t)
  /\ (forall s, 0 <= s <= 1 ->
        Vector.getDistance this closest <= Vector.getDistance this (along s))
  /\ (start = end_ -> closest = start).
Proof.
  intros closest along.
  set (dx := Vector.x end_ - Vector.x start).
  set (dy := Vector.y end_ - Vector.y start).
  unfold closest, Vector.getClosestPointOnLine. simpl Vector.x. simpl Vector.y.
  fold dx dy.
  destruct (Js.eqb dx 0 && Js.eqb dy 0) eqn:Hdeg.
  - apply andb_true_iff in Hdeg. destruct Hdeg as [Hx Hy].
    apply eqb_true in Hx. apply eqb_true in Hy.
    assert (Hal : forall t, along t = start).
    { intros t. unfold along. fold dx dy. rewrite Hx, Hy.
      destruct start as [a b]. simpl. f_equal; ring. }
    split; [exists 0; split; [lra | symmetry; apply Hal] |].
    split; [intros s _; rewrite Hal; apply Rle_refl | reflexivity].
  - assert (HD : 0 < dx * dx + dy * dy).
    { apply andb_false_iff in Hdeg.
      destruct Hdeg as [H | H].
      - assert (dx <> 0) by (intros E; apply eqb_true in E; congruence). nra.
      - assert (dy <> 0) by (intros E; apply eqb_true in E; congruence). nra. }
    set (N := (Vector.x this - Vector.x start) * dx
              + (Vector.y this - Vector.y start) * dy).
    set (u := N / (dx * dx + dy * dy)).
    set (t := Rmin (Rmax 0 u) 1).
    assert (HN : u * (dx * dx + dy * dy) = N) by (unfold u; field; lra).
    split; [exists t; split; [apply clamp_range | reflexivity] |].
    split.
    + intros s Hs. apply distance_le. unfold along. fold dx dy. simpl.
      pose proof (clamp_nearest u s Hs) as Hn. fold t in Hn.
      assert (E : (Vector.x start + s * dx - Vector.x this)
                  * ((Vector.x start + s * dx - Vector.x this) * 1)
                  + (Vector.y start + s * dy - Vector.y this)
                    * ((Vector.y start + s * dy - Vector.y this) * 1)
                  - ((Vector.x start + t * dx - Vector.x this)
                     * ((Vector.x start + t * dx - Vector.x this) * 1)
                     + (Vector.y start + t * dy - Vector.y this)
                       * ((Vector.y start + t * dy - Vector.y this) * 1))
                  = (dx * dx + dy * dy) * ((s - t) * (s + t - 2 * u))).
      { replace ((dx * dx + dy * dy) * ((s - t) * (s + t - 2 * u)))
          with ((s - t) * ((dx * dx + dy * dy) * (s + t)
                           - 2 * (u * (dx * dx + dy * dy)))) by ring.
        rewrite HN. unfold N. ring. }
      assert (0 <= (dx * dx + dy * dy) * ((s - t) * (s + t - 2 * u)))
        by (apply Rmult_le_pos; lra).
      lra.
    + intros E. exfalso. subst end_. unfold dx, dy in HD.
      replace (Vector.x start - Vector.x start) with 0 in HD by ring.
      replace (Vector.y start - Vector.y start) with 0 in HD by ring. lra.
Qed.

Lemma closest_point_on_segment_witness :
  0 <= 1 / 2 <= 1
  /\ Vector.getDistance (Vector.mk 3 4)
       (Vector.getClosestPointOnLine (Vector.mk 3 4) (Vector.mk 0 0)
          (Vector.mk 10 0))
     <= Vector.getDistance (Vector.mk 3 4)
          (Vector.mk (0 + 1 / 2 * (10 - 0)) (0 + 1 / 2 * (0 - 0))).
Proof.
  assert (H : 0 <= 1 / 2 <= 1) by lra.
  split; [exact H |].
  exact (proj1 (proj2 (closest_point_on_segment (Vector.mk 3 4)
                         (Vector.mk 0 0) (Vector.mk 10 0))) (1 / 2) H).
Defined.

(** X2: normalizing twice is normalizing once, and a normalized vector has
    length 0 (when the vector had) or 1. *)
Theorem normalization_idempotent (v : Vector.t) :
  Vector.normalize (Vector.normalize v) = Vector.normalize v
  /\ (Vector.length (Vector.normalize v) = 0
      \/ Vector.length (Vector.normalize v) = 1)
  /\ (Vector.length (Vector.normalize v) = 0 <-> Vector.length v = 0).
Proof.
  split; [apply normalize_idempotent |].
  destruct (Req_dec_T (Vector.length v) 0) as [E | N].
  - rewrite (normalize_fixed v E). split; [left; exact E | tauto].
  - pose proof (normalize_unit v N) as U.
    split; [right; exact U |]. rewrite U. split; [lra | contradiction].
Qed.

(** X3: the angle of any vector, the zero vector included, lies in
    [[0, 2 PI)], and its angle in degrees, computed with the constant
    57.2957795, lies in [[0, 360)]. *)
Theorem heading_angle_range (v : Vector.t) :
  0 <= Vector.toAngle v < 2 * PI /\ 0 <= Vector.toDegrees v < 360.
Proof.
  split; [apply toAngle_range | apply toDegrees_range].
Qed.

Section UnitHeadings.

Lemma fromAngle_unit (radians : R) :
  Vector.length (Vector.fromAngle radians) = 1.
Proof.
  unfold Vector.length, Vector.fromAngle. simpl.
  pose proof (sin2_cos2 radians) as H. unfold Rsqr in H.
  replace (cos radians * cos radians + sin radians * sin radians) with 1
    by lra.
  apply sqrt_1.
Qed.

End UnitHeadings.

(** X4: [fromAngle] and [fromDegrees] make vectors of length one, and so
    after a move the heading of a biod and of a predator has length one,
    whatever heading was asked for and whatever the heading was before. *)
Theorem heading_unit_after_move
    (b : Biod.t) (p : Predator.t) (flock : list Biod.t)
    (newHeading : Vector.t) (angle : R) :
  Vector.length (Vector.fromAngle angle) = 1
  /\ Vector.length (Vector.fromDegrees angle) = 1
  /\ Vector.length (Biod.heading (Biod.move b newHeading)) = 1
  /\ Vector.length
       (Predator.heading (fst (Predator.move p newHeading flock))) = 1.
Proof.
  repeat split; apply fromAngle_unit.
Qed.

(** X5: the angle of the vector that [fromAngle] makes of an angle in
    [[0, 2 PI)] is that angle.  In degrees the round trip is not exact:
    for an angle in [[0, 360)], [toDegrees] of the vector that
    [fromDegrees] makes is the angle times the product of the two
    conversion constants, which is below the angle by less than 0.0000005
    degrees. *)
Theorem angle_round_trip (angle : R) :
  (0 <= angle < 2 * PI ->
   Vector.toAngle (Vector.fromAngle angle) = angle)
  /\ (0 <= angle < 360 ->
      Vector.toDegrees (Vector.fromDegrees angle)
      = angle * (Vector.degsToRads * Vector.radsToDegs)
      /\ angle - 0.0000005 < Vector.toDegrees (Vector.fromDegrees angle)
         <= angle).
Proof.
  pose proof PI_bounds as HPI.
  split; [apply toAngle_fromAngle |].
  intros Ha.
  assert (E : Vector.toDegrees (Vector.fromDegrees angle)
              = angle * (Vector.degsToRads * Vector.radsToDegs)).
  { unfold Vector.toDegrees, Vector.fromDegrees.
    rewrite toAngle_fromAngle by (unfold Vector.degsToRads; lra).
    ring. }
  split; [exact E |].
  rewrite E. unfold Vector.degsToRads, Vector.radsToDegs. lra.
Qed.

Lemma angle_round_trip_witness :
  0 <= 90 < 360
  /\ Vector.toDegrees (Vector.fromDegrees 90)
     = 90 * (Vector.degsToRads * Vector.radsToDegs).
Proof.
  assert (H : 0 <= 90 < 360) by lra.
  split; [exact H |].
  exact (proj1 (proj2 (angle_round_trip 90) H)).
Defined.

Section Metric.

Lemma distance_as_length (p q : Vector.t) :
  Vector.getDistance p q
  = Vector.length (Vector.mk (Vector.x q - Vector.x p)
                             (Vector.y q - Vector.y p)).
Proof.
  unfold Vector.getDistance, Vector.length. simpl. f_equal. ring.
Qed.

Lemma length_triangle (a b c d : R) :
  sqrt ((a + c) * (a + c) + (b + d) * (b + d))
  <= sqrt (a * a + b * b) + sqrt (c * c + d * d).
Proof.
  set (l1 := sqrt (a * a + b * b)). set (l2 := sqrt (c * c + d * d)).
  assert (H1 : 0 <= l1) by apply sqrt_pos.
  assert (H2 : 0 <= l2) by apply sqrt_pos.
  assert (S1 : l1 * l1 = a * a + b * b) by (apply sqrt_sqrt; nra).
  assert (S2 : l2 * l2 = c * c + d * d) by (apply sqrt_sqrt; nra).
  assert (CS : a * c + b * d <= l1 * l2).
  { destruct (Rle_dec (a * c + b * d) 0) as [Hn | Hp].
    - apply Rle_trans with 0; [exact Hn | apply Rmult_le_pos; assumption].
    - apply Rsqr_incr_0_var; [| apply Rmult_le_pos; assumption].
      unfold Rsqr.
      replace (l1 * l2 * (l1 * l2)) with ((l1 * l1) * (l2 * l2)) by ring.
      rewrite S1, S2.
      pose proof (Rle_0_sqr (a * d - b * c)) as Hsq. unfold Rsqr in Hsq.
      lra. }
  rewrite <- (sqrt_square (l1 + l2)) by lra.
  apply sqrt_le_1_alt.
  replace ((l1 + l2) * (l1 + l2)) with (l1 * l1 + 2 * (l1 * l2) + l2 * l2)
    by ring.
  rewrite S1, S2. lra.
Qed.

End Metric.

(** X6: [getDistance] is a metric: it is never negative, zero exactly
    between a point and itself, the same in both directions, and it obeys
    the triangle inequality. *)
Theorem distance_is_metric (p q r : Vector.t) :
  0 <= Vector.getDistance p q
  /\ (Vector.getDistance p q = 0 <-> p = q)
  /\ Vector.getDistance p q = Vector.getDistance q p
  /\ Vector.getDistance p r
     <= Vector.getDistance p q + Vector.getDistance q r.
Proof.
  split; [apply sqrt_pos |].
  split.
  { rewrite distance_as_length. split.
    - intros H. apply length_zero_inv in H.
      destruct p as [a b], q as [c d]. unfold Vector.zero in H. simpl in H.
      injection H as Hx Hy. f_equal; lra.
    - intros E. subst q.
      replace (Vector.mk (Vector.x p - Vector.x p) (Vector.y p - Vector.y p))
        with Vector.zero by (unfold Vector.zero; f_equal; ring).
      apply length_zero. }
  split.
  { unfold Vector.getDistance. f_equal. ring. }
  rewrite !distance_as_length. unfold Vector.length. simpl.
  replace (Vector.x r - Vector.x p)
    with ((Vector.x q - Vector.x p) + (Vector.x r - Vector.x q)) by ring.
  replace (Vector.y r - Vector.y p)
    with ((Vector.y q - Vector.y p) + (Vector.y r - Vector.y q)) by ring.
  apply length_triangle.
Qed.

Section Opposite.

Lemma length_opposite (v : Vector.t) :
  Vector.length (Vector.mk (- Vector.x v) (- Vector.y v)) = Vector.length v.
Proof.
  unfold Vector.length. simpl. f_equal. ring.
Qed.

Lemma length_turned (v : Vector.t) :
  Vector.length (Vector.scale v (-1)) = Vector.length v.
Proof.
  unfold Vector.length, Vector.scale. simpl. f_equal. ring.
Qed.

(** The direction back is the direction there, turned around. *)
Lemma direction_opposite (p q : Vector.t) :
  Vector.getDirectionTo q p = Vector.scale (Vector.getDirectionTo p q) (-1).
Proof.
  unfold Vector.getDirectionTo.
  set (v := Vector.mk (Vector.x q - Vector.x p) (Vector.y q - Vector.y p)).
  replace (Vector.mk (Vector.x p - Vector.x q) (Vector.y p - Vector.y q))
    with (Vector.mk (- Vector.x v) (- Vector.y v))
    by (unfold v; simpl; f_equal; ring).
  unfold Vector.normalize. rewrite length_opposite.
  destruct (Req_dec_T (Vector.length v) 0) as [E | N].
  - unfold Vector.scale. simpl. f_equal; ring.
  - unfold Vector.scale. simpl. f_equal; field; exact N.
Qed.

End Opposite.

(** X7: the pull of an attractive field on a biod and the push of a
    repulsive field with the same position, strength, radius and function
    type are opposite vectors, and both fields reach the same biods; so the
    mouse field with the shift key pushes exactly as hard as it pulls
    without. *)
Theorem repulsion_is_opposite_attraction
    (position : Vector.t) (strength radius : R) (functionType : string)
    (b : Biod.t) :
  let attracts := Emitter.mk position strength radius functionType false in
  let repels := Emitter.mk position strength radius functionType true in
  Emitter.influence repels b = Vector.scale (Emitter.influence attracts b) (-1)
  /\ Vector.length (Emitter.influence repels b)
     = Vector.length (Emitter.influence attracts b)
  /\ Emitter.inRange repels b = Emitter.inRange attracts b.
Proof.
  intros attracts repels.
  assert (E : Emitter.influence repels b
              = Vector.scale (Emitter.influence attracts b) (-1)).
  { unfold Emitter.influence. simpl.
    rewrite (direction_opposite (Biod.position b) position).
    change (Emitter.influenceStrength repels)
      with (Emitter.influenceStrength attracts).
    unfold Vector.scale. simpl. f_equal; ring. }
  split; [exact E |]. split; [| reflexivity].
  rewrite E. apply length_turned.
Qed.

Section Falloff.

Variable this : Emitter.t.

Lemma falloff_log_monotone (d1 d2 : R) :
  0 <= d1 <= d2 -> Rmax 0 (ln d1) <= Rmax 0 (ln d2).
Proof.
  intros [[H1 | H1] H12].
  - apply Rle_max_compat_l. destruct H12 as [H12 | H12].
    + apply Rlt_le, ln_increasing; assumption.
    + rewrite H12. apply Rle_refl.
  - subst d1. unfold ln at 1.
    destruct (Rlt_dec 0 0) as [H | _];
      [exfalso; apply (Rlt_irrefl 0 H) |].
    rewrite Rmax_left by apply Rle_refl. apply Rmax_l.
Qed.

Lemma subAmount_monotone (d1 d2 : R) :
  0 <= d1 <= d2 ->
  Emitter.subAmount this d1 <= Emitter.subAmount this d2.
Proof.
  intros H. unfold Emitter.subAmount.
  destruct (String.eqb (Emitter.functionType this) "linear").
  { apply Rle_min_compat_l. apply H. }
  destruct (String.eqb (Emitter.functionType this) "log").
  { apply falloff_log_monotone. exact H. }
  destruct (String.eqb (Emitter.functionType this) "exp").
  { apply Rle_max_compat_l. nra. }
  apply Rle_refl.
Qed.

Lemma subAmount_nonneg (d : R) :
  0 <= Emitter.strength this -> 0 <= d -> 0 <= Emitter.subAmount this d.
Proof.
  intros Hs Hd. unfold Emitter.subAmount.
  destruct (String.eqb (Emitter.functionType this) "linear").
  { apply Rmin_glb; assumption. }
  destruct (String.eqb (Emitter.functionType this) "log"); [apply Rmax_l |].
  destruct (String.eqb (Emitter.functionType this) "exp"); [apply Rmax_l |].
  apply Rle_refl.
Qed.

End Falloff.

(** X8: the strength with which an emitter acts never grows with the
    distance, for each of the function types and for an unknown one; for a
    strength that is not negative it lies between 0 and the strength of
    the emitter; and a linear emitter acts with [strength - distance] up to
    the distance [strength] and with 0 from there on, whatever its
    radius. *)
Theorem influence_falls_with_distance (this : Emitter.t) (d1 d2 : R) :
  0 <= d1 <= d2 ->
  Emitter.influenceStrength this d2 <= Emitter.influenceStrength this d1
  /\ (0 <= Emitter.strength this ->
      0 <= Emitter.influenceStrength this d1 <= Emitter.strength this)
  /\ (Emitter.functionType this = "linear"%string ->
      (d1 <= Emitter.strength this ->
       Emitter.influenceStrength this d1 = Emitter.strength this - d1)
      /\ (Emitter.strength this <= d1 ->
          Emitter.influenceStrength this d1 = 0)).
Proof.
  intros H.
  pose proof (subAmount_monotone this d1 d2 H) as Hm.
  rewrite !influenceStrength_max.
  split; [apply Rle_max_compat_l; lra |].
  split.
  - intros Hs. split; [apply Rmax_l |].
    pose proof (subAmount_nonneg this d1 Hs (proj1 H)) as Hn.
    apply Rmax_lub; lra.
  - intros Hlin. unfold Emitter.subAmount. rewrite Hlin. simpl. split.
    + intros Hle. rewrite Rmin_right by exact Hle.
      rewrite Rmax_right by lra. reflexivity.
    + intros Hge. rewrite Rmin_left by exact Hge.
      replace (Emitter.strength this - Emitter.strength this) with 0 by ring.
      apply Rmax_left. apply Rle_refl.
Qed.

Lemma influence_falls_with_distance_witness :
  0 <= 10 <= 20
  /\ Emitter.influenceStrength
       (Emitter.mk (Vector.mk 100 100) 50 30 "linear" true) 20
     <= Emitter.influenceStrength
          (Emitter.mk (Vector.mk 100 100) 50 30 "linear" true) 10
  /\ Emitter.influenceStrength
       (Emitter.mk (Vector.mk 100 100) 50 30 "linear" true) 10 = 50 - 10.
Proof.
  assert (H : 0 <= 10 <= 20) by lra.
  destruct (influence_falls_with_distance
              (Emitter.mk (Vector.mk 100 100) 50 30 "linear" true) 10 20 H)
    as (Hfall & _ & Hlin).
  split; [exact H |]. split; [exact Hfall |].
  apply (proj1 (Hlin eq_refl)). simpl. lra.
Defined.

(** ** Emitters that stack, and influences that are used up *)

Section Stacking.

Lemma affect_position (e : Emitter.t) (b : Biod.t) :
  Biod.position (Emitter.affect e b) = Biod.position b
  /\ Biod.heading (Emitter.affect e b) = Biod.heading b.
Proof.
  unfold Emitter.affect. destruct (Emitter.inRange e b); split; reflexivity.
Qed.

Lemma affect_influences (e : Emitter.t) (b : Biod.t) :
  Biod.emitterInfluences (Emitter.affect e b)
  = Biod.emitterInfluences b
    ++ map (fun e' => Emitter.influence e' b)
         (filter (fun e' => Emitter.inRange e' b) [e]).
Proof.
  unfold Emitter.affect. simpl.
  destruct (Emitter.inRange e b); simpl; [reflexivity |].
  symmetry. apply app_nil_r.
Qed.

Lemma influence_by_position (e : Emitter.t) (b1 b2 : Biod.t) :
  Biod.position b1 = Biod.position b2 ->
  Emitter.influence e b1 = Emitter.influence e b2
  /\ Emitter.inRange e b1 = Emitter.inRange e b2.
Proof.
  intros E. unfold Emitter.influence, Emitter.inRange. rewrite E.
  split; reflexivity.
Qed.

Lemma updateEmitters_nth (es : list Emitter.t) :
  forall (flock : list Biod.t) (i : nat) (b : Biod.t),
    nth_error flock i = Some b ->
    exists b',
      nth_error (Flock.updateEmitters es flock) i = Some b'
      /\ Biod.emitterInfluences b'
         = Biod.emitterInfluences b
           ++ map (fun e => Emitter.influence e b)
                (filter (fun e => Emitter.inRange e b) es)
      /\ Biod.position b' = Biod.position b
      /\ Biod.heading b' = Biod.heading b.
Proof.
  induction es as [| e rest IH]; intros flock i b Hi.
  - exists b. simpl. rewrite app_nil_r. repeat split. exact Hi.
  - simpl Flock.updateEmitters.
    destruct (IH (Emitter.update e flock) i (Emitter.affect e b))
      as (b' & Hn & Hinf & Hp & Hh).
    { rewrite update_nth, Hi. reflexivity. }
    destruct (affect_position e b) as [Ep Eh].
    exists b'. split; [exact Hn |].
    split; [| split; congruence].
    rewrite Hinf, affect_influences, <- app_assoc. f_equal.
    change (e :: rest) with ([e] ++ rest).
    rewrite filter_app, map_app. f_equal.
    rewrite (filter_ext _ (fun e0 => Emitter.inRange e0 b))
      by (intros e0; apply (influence_by_position e0 _ _ Ep)).
    apply map_ext. intros e0. apply (influence_by_position e0 _ _ Ep).
Qed.

End Stacking.

(** X9: emitters stack: after all the emitters of the flock have been
    applied, a biod carries the influences it had, followed by one influence
    of each emitter that has it in range, in the order of the emitters, and
    it is where it was and heads where it headed. *)
Theorem emitters_stack
    (emitters : list Emitter.t) (flock : list Biod.t) (i : nat) (b : Biod.t) :
  nth_error flock i = Some b ->
  exists b',
    nth_error (Flock.updateEmitters emitters flock) i = Some b'
    /\ Biod.emitterInfluences b'
       = Biod.emitterInfluences b
         ++ map (fun e => Emitter.influence e b)
              (filter (fun e => Emitter.inRange e b) emitters)
    /\ Biod.position b' = Biod.position b
    /\ Biod.heading b' = Biod.heading b.
Proof.
  apply updateEmitters_nth.
Qed.

Lemma emitters_stack_witness :
  nth_error [biodAt 110 100] 0 = Some (biodAt 110 100)
  /\ exists b',
       nth_error
         (Flock.updateEmitters
            [Emitter.mk (Vector.mk 100 100) 50 30 "linear" true;
             Emitter.mk (Vector.mk 500 500) 50 30 "linear" true]
            [biodAt 110 100]) 0 = Some b'
       /\ Biod.position b' = Biod.position (biodAt 110 100).
Proof.
  split; [reflexivity |].
  destruct (emitters_stack
              [Emitter.mk (Vector.mk 100 100) 50 30 "linear" true;
               Emitter.mk (Vector.mk 500 500) 50 30 "linear" true]
              [biodAt 110 100] 0 (biodAt 110 100) eq_refl)
    as (b' & Hn & _ & Hp & _).
  exists b'. split; [exact Hn | exact Hp].
Defined.

Section UsedUp.

Lemma setAt_same {A : Type} (i : nat) (v : A) (l : list A) :
  (i < List.length l)%nat -> nth_error (Js.setAt i v l) i = Some v.
Proof.
  revert i. induction l as [| a rest IH]; intros [| i] H; simpl in *;
    try lia; [reflexivity |].
  apply IH. lia.
Qed.

(** The passes of the first biod loop leave every biod they reach without
    influences. *)
Lemma headingsFrom_empties :
  forall (todo i : nat) (cur : list Biod.t),
    (forall j b, (j < i)%nat -> nth_error cur j = Some b -> Spec.emptied b) ->
    (i + todo = List.length cur)%nat ->
    Forall Spec.emptied (snd (Flock.headingsFrom todo i cur)).
Proof.
  induction todo as [| k IH]; intros i cur Hdone Hlen.
  - simpl. apply Forall_forall. intros b Hb.
    destruct (In_nth_error _ _ Hb) as [j Hj].
    apply (Hdone j b); [| exact Hj].
    assert (j < List.length cur)%nat
      by (apply nth_error_Some; congruence).
    lia.
  - rewrite headingsFrom_pass.
    destruct (nth_error cur i) as [b |] eqn:Hb;
      [| apply nth_error_None in Hb; lia].
    unfold Biod.calculateNewHeading.
    set (b' := Biod.mk _ _ _ _ _ _ _ _ _ _ [] _).
    specialize (IH (S i) (Js.setAt i b' cur)).
    destruct (Flock.headingsFrom k (S i) (Js.setAt i b' cur))
      as [hs flock'].
    cbn [snd] in *. apply IH.
    + intros j c Hj Hc.
      destruct (Nat.eq_dec j i) as [E | N].
      * subst j. rewrite setAt_same in Hc by lia.
        injection Hc as Hc. subst c. reflexivity.
      * rewrite setAt_other in Hc by lia. apply (Hdone j c); [lia | exact Hc].
    + rewrite setAt_length. lia.
Qed.

Lemma moveBiods_emptied (flock : list Biod.t) (hs : list Vector.t) :
  Forall Spec.emptied flock -> Forall Spec.emptied (Flock.moveBiods flock hs).
Proof.
  intros H. revert hs. induction H as [| b rest Hb Hr IH]; intros hs;
    [destruct hs; constructor |].
  destruct hs as [| h hs]; simpl; constructor; try assumption.
  apply IH.
Qed.

(** The flock that a tick leaves, from the flock that the predators
    leave. *)
Lemma update_flock (m : Flock.mouse) (this : Flock.t) :
  exists flock4,
    Flock.flock (Flock.update m this)
    = Flock.moveBiods (snd (Flock.newHeadings flock4))
        (fst (Flock.newHeadings flock4)).
Proof.
  unfold Flock.update.
  destruct (Flock.movePredators _ _ _) as [predators' flock4].
  exists flock4.
  destruct (Flock.newHeadings flock4) as [headings flock5]. reflexivity.
Qed.

End UsedUp.

(** X10: a tick uses up all influences: after [update] no biod of the
    flock carries an emitter influence, whatever the emitters, the mouse
    and the predators pushed during the tick. *)
Theorem tick_uses_up_influences (m : Flock.mouse) (this : Flock.t) :
  Forall (fun b => Biod.emitterInfluences b = [])
         (Flock.flock (Flock.update m this)).
Proof.
  destruct (update_flock m this) as [flock4 E]. rewrite E.
  apply moveBiods_emptied. unfold Flock.newHeadings.
  apply headingsFrom_empties; [intros j b Hj; lia | reflexivity].
Qed.

(** ** The diagnostic, the victim and the neighbors *)

(** X11: the dominant influence that [calculateNewHeading] records is the
    largest of the three factors, and its label names a factor of that
    size: claustrophobia when it is at least the two others, else cohesion
    when it is at least the emitter factor, else emitter. *)
Theorem dominant_is_largest
    (this : Biod.t) (self : nat) (flock : list Biod.t) :
  let ns := Biod.neighbors this self flock in
  let claustroFactor := Vector.length (Biod.crowding this ns) in
  let cohesionFactor :=
    Vector.length (Biod.alignment this ns)
    + Vector.length (Biod.cohesion this ns) in
  let emitterFactor := Vector.length (Biod.emitterSum this) in
  let this' := snd (Biod.calculateNewHeading this self flock) in
  Biod.majorInfluenceStrength this'
  = Some (Rmax claustroFactor (Rmax cohesionFactor emitterFactor))
  /\ (Biod.majorInfluence this' = Some "claustrophobia"%string
      <-> cohesionFactor <= claustroFactor /\ emitterFactor <= claustroFactor)
  /\ (Biod.majorInfluence this' = Some "cohesion"%string
      <-> claustroFactor < cohesionFactor /\ emitterFactor <= cohesionFactor)
  /\ (Biod.majorInfluence this' = Some "emitter"%string
      <-> claustroFactor < emitterFactor /\ cohesionFactor < emitterFactor).
Proof.
  intros ns c h e this'.
  unfold this', Biod.calculateNewHeading. cbn [snd].
  cbn [Biod.majorInfluence Biod.majorInfluenceStrength].
  unfold Biod.dominant. fold ns. fold c. fold h. fold e.
  unfold Js.leb.
  destruct (Rle_dec h c) as [Hhc | Hhc]; destruct (Rle_dec e c) as [Hec | Hec];
    cbn [andb]; try destruct (Rle_dec e h) as [Heh | Heh]; cbn [fst snd].
  all: repeat split; intros;
    try match goal with
        | H : Some _ = Some _ |- _ => discriminate H
        end;
    try lra; try reflexivity.
  all: f_equal; symmetry;
    first [rewrite (Rmax_right h e) by lra | rewrite (Rmax_left h e) by lra];
    first [rewrite Rmax_right by lra | rewrite Rmax_left by lra];
    reflexivity.
Qed.

Section Hunting.

Variable p : Predator.t.




End Hunting.



Section Neighbors.

Variable this : Biod.t.
Variable self : nat.

Lemma sees_spec (i : nat) (other : Biod.t) :
  Biod.sees this self i other = true
  <-> Vector.getDistance (Biod.position other) (Biod.position this)
      <= Biod.sightRadius this
      /\ i <> self
      /\ 0 < Biod.cosDot this other.
Proof.
  unfold Biod.sees, Js.leb, Js.ltb.
  destruct (Rle_dec _ _) as [Hd | Hd];
    destruct (Nat.eqb_spec i self) as [Hi | Hi];
    destruct (Rlt_dec 0 _) as [Hc | Hc]; simpl; split;
    try discriminate; try tauto.
Qed.

Lemma findNeighbors_spec (flock : list Biod.t) :
  forall (i : nat) (b : Biod.t),
    In b (Biod.findNeighbors this self i flock)
    <-> exists k, nth_error flock k = Some b
                  /\ Biod.sees this self (i + k) b = true.
Proof.
  induction flock as [| a rest IH]; intros i b; simpl.
  - split; [intros [] | intros [[| k] [H _]]; discriminate].
  - assert (Hrest : In b (Biod.findNeighbors this self (S i) rest)
                    <-> exists k, nth_error (a :: rest) (S k) = Some b
                          /\ Biod.sees this self (i + S k) b = true).
    { rewrite IH. split; intros [k [Hk Hs]]; exists k; simpl;
        (split; [exact Hk |]).
      - rewrite Nat.add_succ_r. exact Hs.
      - rewrite Nat.add_succ_r in Hs. exact Hs. }
    destruct (Biod.sees this self i a) eqn:Ha.
    + simpl. split.
      * intros [E | Hin].
        -- subst b. exists 0%nat. rewrite Nat.add_0_r.
           split; [reflexivity | exact Ha].
        -- apply Hrest in Hin. destruct Hin as [k Hk]. exists (S k). exact Hk.
      * intros [[| k] [Hk Hs]].
        -- left. simpl in Hk. congruence.
        -- right. apply Hrest. exists k. split; assumption.
    + split.
      * intros Hin. apply Hrest in Hin. destruct Hin as [k Hk].
        exists (S k). exact Hk.
      * intros [[| k] [Hk Hs]].
        -- simpl in Hk. injection Hk as Hk. subst b.
           rewrite Nat.add_0_r in Hs. congruence.
        -- apply Hrest. exists k. split; assumption.
Qed.

Lemma findNeighbors_count (flock : list Biod.t) :
  forall i : nat,
    (List.length (Biod.findNeighbors this self i flock)
     <= List.length flock)%nat
    /\ ((i <= self < i + List.length flock)%nat ->
        (List.length (Biod.findNeighbors this self i flock)
         < List.length flock)%nat).
Proof.
  induction flock as [| a rest IH]; intros i; simpl.
  - split; lia.
  - destruct (IH (S i)) as [Hle Hlt].
    destruct (Nat.eq_dec i self) as [E | N].
    + subst i. rewrite sees_self. split; lia.
    + destruct (Biod.sees this self i a); simpl; split; try lia;
        intros Hr; assert (S i <= self < S i + List.length rest)%nat by lia;
        specialize (Hlt H); lia.
Qed.

End Neighbors.

(** X13: the visible neighbors of a biod are exactly the biods of the flock
    at another index that are within its sight radius and whose [Math.cos]
    of the dot value is positive; the biod itself is never among them, so a
    biod of the flock has fewer neighbors than the flock has biods, and a
    biod alone in the flock has none. *)
Theorem neighbors_are_the_seen
    (this : Biod.t) (self : nat) (flock : list Biod.t) :
  (forall b,
     In b (Biod.neighbors this self flock)
     <-> exists k, nth_error flock k = Some b
           /\ k <> self
           /\ Vector.getDistance (Biod.position b) (Biod.position this)
              <= Biod.sightRadius this
           /\ 0 < cos (Vector.dot (Biod.heading this)
                         (Vector.getDirectionTo (Biod.position this)
                            (Biod.position b))))
  /\ ((self < List.length flock)%nat ->
      (List.length (Biod.neighbors this self flock) < List.length flock)%nat)
  /\ (List.length flock = 1%nat -> self = 0%nat ->
      Biod.neighbors this self flock = []).
Proof.
  split; [| split].
  - intros b. unfold Biod.neighbors. rewrite findNeighbors_spec.
    split; intros [k [Hk Hs]]; exists k; (split; [exact Hk |]).
    + apply sees_spec in Hs. simpl in Hs. tauto.
    + apply sees_spec. simpl. unfold Biod.cosDot. tauto.
  - intros Hs. apply (findNeighbors_count this self flock 0). lia.
  - intros Hl Hs. subst self.
    pose proof (proj2 (findNeighbors_count this 0 flock 0)) as H.
    fold (Biod.neighbors this 0 flock) in H.
    destruct (Biod.neighbors this 0 flock) as [| n ns]; [reflexivity |].
    simpl in H. lia.
Qed.

Lemma neighbors_are_the_seen_witness :
  (0 < List.length [biodAt 100 100; biodAt 90 100])%nat
  /\ (List.length (Biod.neighbors (biodAt 100 100) 0
                     [biodAt 100 100; biodAt 90 100])
      < List.length [biodAt 100 100; biodAt 90 100])%nat.
Proof.
  assert (H : (0 < List.length [biodAt 100 100; biodAt 90 100])%nat)
    by (simpl; lia).
  split; [exact H |].
  exact (proj1 (proj2 (neighbors_are_the_seen (biodAt 100 100) 0
                         [biodAt 100 100; biodAt 90 100])) H).
Defined.

(** ** Steps across the edges of the sandbox *)

Section Edges.

Lemma wrap_cases (coordinate offset dimension : R) :
  0 < dimension ->
  Spec.wrapped (coordinate + offset) dimension
    (Biod.wrap coordinate offset dimension).
Proof.
  intros Hd. unfold Spec.wrapped, Biod.wrap.
  set (s := coordinate + offset).
  split; [| split]; intros Hs.
  - rewrite rem_small by exact Hs.
    destruct (Rlt_dec s 0); [lra | reflexivity].
  - replace s with (s - dimension + dimension) by ring.
    rewrite rem_shift by lra.
    destruct (Rlt_dec (s - dimension) 0); [lra | ring].
  - rewrite rem_small_neg by exact Hs.
    destruct (Rlt_dec s 0); [reflexivity | lra].
Qed.

End Edges.

(** X14: in a sandbox of positive dimensions a move puts each coordinate of
    a biod and of a predator at the old coordinate plus the step of length
    [speed] along the new heading when that stays inside the sandbox, carries
    it over the far edge with what exceeds the dimension, and puts it on the
    far edge itself, whatever the overshoot, when the sum is negative. *)
Theorem move_steps_and_wraps
    (b : Biod.t) (p : Predator.t) (flock : list Biod.t)
    (newHeading : Vector.t) :
  0 < Vector.x (Biod.sandboxDimensions b) ->
  0 < Vector.y (Biod.sandboxDimensions b) ->
  0 < Vector.x (Predator.sandboxDimensions p) ->
  0 < Vector.y (Predator.sandboxDimensions p) ->
  let b' := Biod.move b newHeading in
  let p' := fst (Predator.move p newHeading flock) in
  Spec.wrapped
    (Vector.x (Biod.position b) + Vector.x (Biod.heading b') * Biod.speed b)
    (Vector.x (Biod.sandboxDimensions b)) (Vector.x (Biod.position b'))
  /\ Spec.wrapped
       (Vector.y (Biod.position b) + Vector.y (Biod.heading b') * Biod.speed b)
       (Vector.y (Biod.sandboxDimensions b)) (Vector.y (Biod.position b'))
  /\ Spec.wrapped
       (Vector.x (Predator.position p)
        + Vector.x (Predator.heading p') * Predator.speed p)
       (Vector.x (Predator.sandboxDimensions p))
       (Vector.x (Predator.position p'))
  /\ Spec.wrapped
       (Vector.y (Predator.position p)
        + Vector.y (Predator.heading p') * Predator.speed p)
       (Vector.y (Predator.sandboxDimensions p))
       (Vector.y (Predator.position p')).
Proof.
  intros Hbx Hby Hpx Hpy b' p'.
  split; [apply (wrap_cases _ _ _ Hbx) |].
  split; [apply (wrap_cases _ _ _ Hby) |].
  split; [apply (wrap_cases _ _ _ Hpx) |].
  apply (wrap_cases _ _ _ Hpy).
Qed.

Lemma move_steps_and_wraps_witness :
  0 < Vector.x (Biod.sandboxDimensions (biodAt 799 300))
  /\ 0 < Vector.y (Biod.sandboxDimensions (biodAt 799 300))
  /\ 0 < Vector.x (Predator.sandboxDimensions (predatorAt 100 100))
  /\ 0 < Vector.y (Predator.sandboxDimensions (predatorAt 100 100))
  /\ Vector.x (Biod.position (Biod.move (biodAt 799 300) (Vector.mk 1 0))) = 2.
Proof.
  assert (H1 : 0 < Vector.x (Biod.sandboxDimensions (biodAt 799 300)))
    by (simpl; lra).
  assert (H2 : 0 < Vector.y (Biod.sandboxDimensions (biodAt 799 300)))
    by (simpl; lra).
  assert (H3 : 0 < Vector.x (Predator.sandboxDimensions (predatorAt 100 100)))
    by (simpl; lra).
  assert (H4 : 0 < Vector.y (Predator.sandboxDimensions (predatorAt 100 100)))
    by (simpl; lra).
  repeat (split; [assumption |]).
  destruct (move_steps_and_wraps (biodAt 799 300) (predatorAt 100 100) []
              (Vector.mk 1 0) H1 H2 H3 H4) as ((_ & Hover & _) & _).
  assert (Hh : Biod.heading (Biod.move (biodAt 799 300) (Vector.mk 1 0))
               = Vector.mk 1 0).
  { unfold Biod.move. cbn [Biod.heading].
    rewrite (turnedAngle_east (biodAt 799 300)) by (simpl; try lra; reflexivity).
    apply fromDegrees_0. }
  rewrite Hh in Hover.
  assert (Hs : Vector.x (Biod.sandboxDimensions (biodAt 799 300))
               <= Vector.x (Biod.position (biodAt 799 300))
                  + Vector.x (Vector.mk 1 0) * Biod.speed (biodAt 799 300)
               < 2 * Vector.x (Biod.sandboxDimensions (biodAt 799 300)))
    by (simpl; lra).
  rewrite (Hover Hs). simpl. lra.
Defined.

(** ** Resetting the simulation *)

Section Reset.

Variable random : nat -> R.
Hypothesis random_range : forall n, 0 <= random n < 1.

Lemma BoundedRandom_range (n : nat) (min max : R) :
  min < max ->
  min <= Sim.BoundedRandom (random n) min max < max.
Proof.
  intros H. unfold Sim.BoundedRandom.
  pose proof (random_range n) as Hr. split; nra.
Qed.

Lemma addBiods_fresh (todo : nat) :
  forall (draws : nat) (flock : Flock.t),
    Forall Spec.fresh (Flock.flock flock) ->
    let result := Sim.addBiods random todo draws flock in
    Forall Spec.fresh (Flock.flock (fst result))
    /\ List.length (Flock.flock (fst result))
       = (List.length (Flock.flock flock) + todo)%nat
    /\ Flock.emitters (fst result) = Flock.emitters flock
    /\ Flock.predators (fst result) = Flock.predators flock
    /\ snd result = (draws + 2 * todo)%nat.
Proof.
  induction todo as [| k IH]; intros draws flock Hf; simpl.
  - repeat split; try assumption; lia.
  - set (newBiod := Biod.new _ 3 10 7 40 200 20 (Vector.mk 800 600)).
    destruct (IH (S (S draws)) (Flock.addBiod flock newBiod))
      as (H1 & H2 & H3 & H4 & H5).
    + simpl. apply Forall_app. split; [exact Hf |].
      constructor; [| constructor].
      unfold Spec.fresh, newBiod. simpl.
      pose proof (BoundedRandom_range draws 0 800) as Hx.
      pose proof (BoundedRandom_range (S draws) 0 600) as Hy.
      repeat split; try lra.
    + repeat split; try assumption.
      * rewrite H2. simpl. rewrite length_app. simpl. lia.
      * rewrite H5. lia.
Qed.

End Reset.

(** X15: with every value of [Math.random] in [[0, 1)], [resetSim] leaves a
    flock of exactly 50 biods and no emitters or predators, whatever the
    flock was before; every biod lies inside the sandbox, [0 <= x < 800] and
    [0 <= y < 600], heads east and carries no influence; 100 random values
    are used. *)
Theorem resetSim_makes_fresh_flock (random : nat -> R) (w : Sim.t) :
  (forall n, 0 <= random n < 1) ->
  let w' := Sim.resetSim random w in
  List.length (Flock.flock (Sim.g_flock w')) = 50%nat
  /\ Flock.emitters (Sim.g_flock w') = []
  /\ Flock.predators (Sim.g_flock w') = []
  /\ Forall Spec.fresh (Flock.flock (Sim.g_flock w'))
  /\ (forall b, In b (Flock.flock (Sim.g_flock w')) ->
        Biod.heading b = Vector.mk 1 0 /\ Biod.emitterInfluences b = [])
  /\ Sim.draws w' = (Sim.draws w + 100)%nat.
Proof.
  intros Hr w'.
  pose proof (addBiods_fresh random Hr 50 (Sim.draws w) (Flock.mk [] [] []))
    as H.
  specialize (H (Forall_nil _)). cbv zeta in H.
  unfold w', Sim.resetSim.
  destruct (Sim.addBiods random 50 (Sim.draws w) (Flock.mk [] [] []))
    as [flock draws'].
  cbn [fst snd Sim.g_flock Sim.draws] in *.
  destruct H as (H1 & H2 & H3 & H4 & H5).
  split; [exact H2 |]. split; [exact H3 |]. split; [exact H4 |].
  split; [exact H1 |]. split; [| rewrite H5; lia].
  intros b Hb. rewrite Forall_forall in H1.
  destruct (H1 b Hb) as (_ & _ & E). rewrite E. split; reflexivity.
Qed.

Lemma resetSim_makes_fresh_flock_witness :
  (forall n : nat, 0 <= (fun _ : nat => 1 / 2) n < 1)
  /\ List.length
       (Flock.flock
          (Sim.g_flock
             (Sim.resetSim (fun _ => 1 / 2)
                (Sim.mk (Flock.mk [] [] []) None false [] false false false
                   false false (Vector.mk 0 0) 0)))) = 50%nat.
Proof.
  assert (H : forall n : nat, 0 <= (fun _ : nat => 1 / 2) n < 1)
    by (intros n; lra).
  split; [exact H |].
  exact (proj1 (resetSim_makes_fresh_flock (fun _ => 1 / 2)
                  (Sim.mk (Flock.mk [] [] []) None false [] false false false
                     false false (Vector.mk 0 0) 0) H)).
Defined.

(** ** Keys *)

Section Keys.

Variable random : nat -> R.

Lemma keyP_spec (w : Sim.t) :
  Spec.untouched w (Sim.keyP random w)
  /\ Sim.g_pIsPressed (Sim.keyP random w) = Sim.isDown 80 (Sim.g_keysDown w)
  /\ Sim.g_kIsPressed (Sim.keyP random w) = Sim.g_kIsPressed w
  /\ Sim.g_lIsPressed (Sim.keyP random w) = Sim.g_lIsPressed w
  /\ Sim.g_bIsPressed (Sim.keyP random w) = Sim.g_bIsPressed w
  /\ List.length (Flock.predators (Sim.g_flock (Sim.keyP random w)))
     = (List.length (Flock.predators (Sim.g_flock w))
        + Spec.count (Spec.fires 80 (Sim.g_pIsPressed w) w))%nat
  /\ Flock.emitters (Sim.g_flock (Sim.keyP random w))
     = Flock.emitters (Sim.g_flock w).
Proof.
  unfold Sim.keyP, Spec.fires, Spec.untouched.
  destruct (Sim.isDown 80 (Sim.g_keysDown w)) eqn:Hd;
    destruct (Sim.g_pIsPressed w) eqn:Hp; simpl;
    rewrite ?length_app; simpl; repeat split; auto; lia.
Qed.

Lemma keyK_spec (w : Sim.t) :
  Spec.untouched w (Sim.keyK random w)
  /\ Sim.g_pIsPressed (Sim.keyK random w) = Sim.g_pIsPressed w
  /\ Sim.g_kIsPressed (Sim.keyK random w) = Sim.isDown 75 (Sim.g_keysDown w)
  /\ Sim.g_lIsPressed (Sim.keyK random w) = Sim.g_lIsPressed w
  /\ Sim.g_bIsPressed (Sim.keyK random w) = Sim.g_bIsPressed w
  /\ Flock.predators (Sim.g_flock (Sim.keyK random w))
     = Flock.predators (Sim.g_flock w)
  /\ List.length (Flock.emitters (Sim.g_flock (Sim.keyK random w)))
     = (List.length (Flock.emitters (Sim.g_flock w))
        + Spec.count (Spec.fires 75 (Sim.g_kIsPressed w) w))%nat.
Proof.
  unfold Sim.keyK, Spec.fires, Spec.untouched.
  destruct (Sim.isDown 75 (Sim.g_keysDown w)) eqn:Hd;
    destruct (Sim.g_kIsPressed w) eqn:Hp; simpl;
    rewrite ?length_app; simpl; repeat split; auto; lia.
Qed.

Lemma keyL_spec (w : Sim.t) :
  Spec.untouched w (Sim.keyL random w)
  /\ Sim.g_pIsPressed (Sim.keyL random w) = Sim.g_pIsPressed w
  /\ Sim.g_kIsPressed (Sim.keyL random w) = Sim.g_kIsPressed w
  /\ Sim.g_lIsPressed (Sim.keyL random w) = Sim.isDown 76 (Sim.g_keysDown w)
  /\ Sim.g_bIsPressed (Sim.keyL random w) = Sim.g_bIsPressed w
  /\ Flock.predators (Sim.g_flock (Sim.keyL random w))
     = Flock.predators (Sim.g_flock w)
  /\ List.length (Flock.emitters (Sim.g_flock (Sim.keyL random w)))
     = (List.length (Flock.emitters (Sim.g_flock w))
        + Spec.count (Spec.fires 76 (Sim.g_lIsPressed w) w))%nat.
Proof.
  unfold Sim.keyL, Spec.fires, Spec.untouched.
  destruct (Sim.isDown 76 (Sim.g_keysDown w)) eqn:Hd;
    destruct (Sim.g_lIsPressed w) eqn:Hp; simpl;
    rewrite ?length_app; simpl; repeat split; auto; lia.
Qed.

Lemma keyB_spec (w : Sim.t) :
  Spec.untouched w (Sim.keyB random w)
  /\ Sim.g_pIsPressed (Sim.keyB random w) = Sim.g_pIsPressed w
  /\ Sim.g_kIsPressed (Sim.keyB random w) = Sim.g_kIsPressed w
  /\ Sim.g_lIsPressed (Sim.keyB random w) = Sim.g_lIsPressed w
  /\ Sim.g_bIsPressed (Sim.keyB random w) = Sim.isDown 66 (Sim.g_keysDown w)
  /\ Flock.predators (Sim.g_flock (Sim.keyB random w))
     = Flock.predators (Sim.g_flock w)
  /\ Flock.emitters (Sim.g_flock (Sim.keyB random w))
     = Flock.emitters (Sim.g_flock w).
Proof.
  unfold Sim.keyB, Spec.untouched.
  destruct (Sim.isDown 66 (Sim.g_keysDown w)) eqn:Hd;
    destruct (Sim.g_bIsPressed w) eqn:Hp; simpl; repeat split; auto.
Qed.

(** The state after the keys p, k, l and b. *)
Lemma keys_spec (w : Sim.t) :
  let w4 :=
    Sim.keyB random (Sim.keyL random (Sim.keyK random (Sim.keyP random w))) in
  Spec.untouched w w4
  /\ Sim.g_pIsPressed w4 = Sim.isDown 80 (Sim.g_keysDown w)
  /\ Sim.g_kIsPressed w4 = Sim.isDown 75 (Sim.g_keysDown w)
  /\ Sim.g_lIsPressed w4 = Sim.isDown 76 (Sim.g_keysDown w)
  /\ Sim.g_bIsPressed w4 = Sim.isDown 66 (Sim.g_keysDown w)
  /\ List.length (Flock.predators (Sim.g_flock w4))
     = (List.length (Flock.predators (Sim.g_flock w))
        + Spec.count (Spec.fires 80 (Sim.g_pIsPressed w) w))%nat
  /\ List.length (Flock.emitters (Sim.g_flock w4))
     = (List.length (Flock.emitters (Sim.g_flock w))
        + Spec.count (Spec.fires 75 (Sim.g_kIsPressed w) w)
        + Spec.count (Spec.fires 76 (Sim.g_lIsPressed w) w))%nat.
Proof.
  intros w4. unfold w4. clear w4.
  destruct (keyP_spec w) as ((P1 & P2 & P3 & P4) & Pp & Pk & Pl & Pb & Ppr & Pe).
  destruct (keyK_spec (Sim.keyP random w))
    as ((K1 & K2 & K3 & K4) & Kp & Kk & Kl & Kb & Kpr & Ke).
  destruct (keyL_spec (Sim.keyK random (Sim.keyP random w)))
    as ((L1 & L2 & L3 & L4) & Lp & Lk & Ll & Lb & Lpr & Le).
  destruct (keyB_spec
              (Sim.keyL random (Sim.keyK random (Sim.keyP random w))))
    as ((B1 & B2 & B3 & B4) & Bp & Bk & Bl & Bb & Bpr & Be).
  assert (F75 : Spec.fires 75 (Sim.g_kIsPressed (Sim.keyP random w))
                  (Sim.keyP random w)
                = Spec.fires 75 (Sim.g_kIsPressed w) w)
    by (unfold Spec.fires; rewrite P1, Pk; reflexivity).
  assert (F76 : Spec.fires 76
                  (Sim.g_lIsPressed (Sim.keyK random (Sim.keyP random w)))
                  (Sim.keyK random (Sim.keyP random w))
                = Spec.fires 76 (Sim.g_lIsPressed w) w)
    by (unfold Spec.fires; rewrite K1, P1, Kl, Pl; reflexivity).
  unfold Spec.untouched.
  repeat split; congruence.
Qed.

Lemma movePredators_count
    (ps : list Predator.t) (hs : list Vector.t) (flock : list Biod.t) :
  List.length (fst (Flock.movePredators ps hs flock)) = List.length ps.
Proof.
  revert hs flock. induction ps as [| p rest IH]; intros hs flock;
    [reflexivity |].
  destruct hs as [| h hs]; [reflexivity |]. simpl.
  specialize (IH hs (Emitter.update (Predator.emitter (Predator.step p h))
                       flock)).
  destruct (Flock.movePredators rest hs _) as [rest' flock''].
  simpl in *. now rewrite IH.
Qed.

(** The simulation part of a tick neither adds nor removes a predator or
    an emitter. *)
Lemma update_keeps_fields (m : Flock.mouse) (this : Flock.t) :
  List.length (Flock.predators (Flock.update m this))
  = List.length (Flock.predators this)
  /\ Flock.emitters (Flock.update m this) = Flock.emitters this.
Proof.
  unfold Flock.update.
  set (fl3 := Flock.updateMouse m _).
  pose proof (movePredators_count (Flock.predators this)
                (Flock.newPredHeadings (Flock.predators this) fl3) fl3) as H.
  destruct (Flock.movePredators _ _ fl3) as [predators' flock4].
  destruct (Flock.newHeadings flock4) as [headings flock5].
  simpl in *. split; [exact H | reflexivity].
Qed.

Lemma stays_down (code : nat) (w w' : Sim.t) :
  Sim.g_keysDown w' = Sim.g_keysDown w ->
  Spec.fires code (Sim.isDown code (Sim.g_keysDown w)) w' = false.
Proof.
  intros E. unfold Spec.fires. rewrite E.
  destruct (Sim.isDown code (Sim.g_keysDown w)); reflexivity.
Qed.

(** The key r when it does not fire. *)
Lemma keyR_quiet (w : Sim.t) :
  Sim.resets w = false ->
  Sim.g_flock (Sim.keyR random w) = Sim.g_flock w
  /\ Sim.g_keysDown (Sim.keyR random w) = Sim.g_keysDown w
  /\ Sim.g_pIsPressed (Sim.keyR random w) = Sim.g_pIsPressed w
  /\ Sim.g_kIsPressed (Sim.keyR random w) = Sim.g_kIsPressed w
  /\ Sim.g_lIsPressed (Sim.keyR random w) = Sim.g_lIsPressed w
  /\ Sim.g_bIsPressed (Sim.keyR random w) = Sim.g_bIsPressed w
  /\ Sim.g_rIsPressed (Sim.keyR random w) = Sim.isDown 82 (Sim.g_keysDown w).
Proof.
  unfold Sim.resets, Sim.keyR. intros H.
  destruct (Sim.isDown 82 (Sim.g_keysDown w));
    destruct (Sim.g_rIsPressed w) eqn:Hflag; cbn [andb negb] in H;
    try discriminate H; cbn; repeat split; auto.
Qed.

(** The key r when it fires. *)
Lemma keyR_fires (w : Sim.t) :
  Sim.resets w = true ->
  Sim.g_flock (Sim.keyR random w)
  = fst (Sim.addBiods random 50 (Sim.draws w) (Flock.mk [] [] []))
  /\ Sim.g_keysDown (Sim.keyR random w) = Sim.g_keysDown w
  /\ Sim.g_rIsPressed (Sim.keyR random w) = true.
Proof.
  unfold Sim.resets, Sim.keyR. intros H.
  destruct (Sim.isDown 82 (Sim.g_keysDown w));
    destruct (Sim.g_rIsPressed w) eqn:Hflag; cbn [andb negb] in H;
    try discriminate H.
  unfold Sim.resetSim.
  generalize (Sim.addBiods random 50 (Sim.draws w) (Flock.mk [] [] [])).
  intros [flock draws']. repeat split.
Qed.

(** The fields of the state after a step. *)
Lemma runSimulation_fields (w : Sim.t) :
  let w4 :=
    Sim.keyB random (Sim.keyL random (Sim.keyK random (Sim.keyP random w))) in
  let w5 := Sim.keyR random w4 in
  (exists m,
     Sim.g_flock (Sim.runSimulation random w)
     = if Sim.resets w4 then Sim.g_flock w5
       else Flock.update m (Sim.g_flock w4))
  /\ Sim.g_keysDown (Sim.runSimulation random w) = Sim.g_keysDown w5
  /\ Sim.g_pIsPressed (Sim.runSimulation random w) = Sim.g_pIsPressed w5
  /\ Sim.g_kIsPressed (Sim.runSimulation random w) = Sim.g_kIsPressed w5
  /\ Sim.g_lIsPressed (Sim.runSimulation random w) = Sim.g_lIsPressed w5
  /\ Sim.g_bIsPressed (Sim.runSimulation random w) = Sim.g_bIsPressed w5
  /\ Sim.g_rIsPressed (Sim.runSimulation random w) = Sim.g_rIsPressed w5.
Proof.
  intros w4 w5.
  assert (E : Sim.runSimulation random w
              = Sim.mk
                  (if Sim.resets w4 then Sim.g_flock w5
                   else Flock.update
                          (Flock.mkMouse (Sim.g_mouseEmitter w5)
                             (Sim.g_mouseIsDown w5)
                             (Sim.isDown 16 (Sim.g_keysDown w5)))
                          (Sim.g_flock w4))
                  (Sim.mouseAfter w5) (Sim.g_mouseIsDown w5)
                  (Sim.g_keysDown w5) (Sim.g_pIsPressed w5)
                  (Sim.g_kIsPressed w5) (Sim.g_lIsPressed w5)
                  (Sim.g_bIsPressed w5) (Sim.g_rIsPressed w5)
                  (Sim.g_mouseVec w5) (Sim.draws w5))
    by reflexivity.
  clearbody w4 w5. rewrite E. clear E.
  split; [eexists; reflexivity |]. repeat split.
Qed.

End Keys.

(** What a step that does not reset the simulation does to the counts and
    to the flags. *)
Lemma runSimulation_keys (random : nat -> R) (w : Sim.t) :
  Spec.fires 82 (Sim.g_rIsPressed w) w = false ->
  let w' := Sim.runSimulation random w in
  List.length (Flock.predators (Sim.g_flock w'))
  = (List.length (Flock.predators (Sim.g_flock w))
     + Spec.count (Spec.fires 80 (Sim.g_pIsPressed w) w))%nat
  /\ List.length (Flock.emitters (Sim.g_flock w'))
     = (List.length (Flock.emitters (Sim.g_flock w))
        + Spec.count (Spec.fires 75 (Sim.g_kIsPressed w) w)
        + Spec.count (Spec.fires 76 (Sim.g_lIsPressed w) w))%nat
  /\ Sim.g_keysDown w' = Sim.g_keysDown w
  /\ Sim.g_pIsPressed w' = Sim.isDown 80 (Sim.g_keysDown w)
  /\ Sim.g_kIsPressed w' = Sim.isDown 75 (Sim.g_keysDown w)
  /\ Sim.g_lIsPressed w' = Sim.isDown 76 (Sim.g_keysDown w)
  /\ Sim.g_bIsPressed w' = Sim.isDown 66 (Sim.g_keysDown w)
  /\ Sim.g_rIsPressed w' = Sim.isDown 82 (Sim.g_keysDown w)
  /\ Spec.fires 80 (Sim.g_pIsPressed w') w' = false
  /\ Spec.fires 75 (Sim.g_kIsPressed w') w' = false
  /\ Spec.fires 76 (Sim.g_lIsPressed w') w' = false
  /\ Spec.fires 66 (Sim.g_bIsPressed w') w' = false
  /\ Spec.fires 82 (Sim.g_rIsPressed w') w' = false.
Proof.
  intros Hr w'.
  destruct (keys_spec random w)
    as ((U1 & U2 & U3 & U4) & Fp & Fk & Fl & Fb & Hp & He).
  destruct (runSimulation_fields random w)
    as ([m Eflock] & Ekeys & Ep & Ek & El & Eb & Er).
  fold w' in Eflock, Ekeys, Ep, Ek, El, Eb, Er.
  clearbody w'.
  set (w4 := Sim.keyB random
               (Sim.keyL random (Sim.keyK random (Sim.keyP random w)))) in *.
  clearbody w4.
  assert (Hres : Sim.resets w4 = false).
  { unfold Sim.resets. rewrite U1, U2. exact Hr. }
  destruct (keyR_quiet random w4 Hres) as (_ & Rk & Rp & Rkk & Rl & Rb & Rr).
  rewrite Hres in Eflock.
  destruct (update_keeps_fields m (Sim.g_flock w4)) as [Kp Ke].
  assert (Ekeys' : Sim.g_keysDown w' = Sim.g_keysDown w) by congruence.
  assert (Ep' : Sim.g_pIsPressed w' = Sim.isDown 80 (Sim.g_keysDown w))
    by congruence.
  assert (Ek' : Sim.g_kIsPressed w' = Sim.isDown 75 (Sim.g_keysDown w))
    by congruence.
  assert (El' : Sim.g_lIsPressed w' = Sim.isDown 76 (Sim.g_keysDown w))
    by congruence.
  assert (Eb' : Sim.g_bIsPressed w' = Sim.isDown 66 (Sim.g_keysDown w))
    by congruence.
  assert (Er' : Sim.g_rIsPressed w' = Sim.isDown 82 (Sim.g_keysDown w))
    by congruence.
  split; [rewrite Eflock, Kp; exact Hp |].
  split; [rewrite Eflock, Ke; exact He |].
  split; [exact Ekeys' |].
  split; [exact Ep' |]. split; [exact Ek' |]. split; [exact El' |].
  split; [exact Eb' |]. split; [exact Er' |].
  rewrite Ep', Ek', El', Eb', Er'.
  repeat split; apply stays_down; exact Ekeys'.
Qed.

(** X16: in a step of the simulation that does not reset it, the key p
    adds one predator, and the keys k and l one emitter each, exactly when
    the key is down and was not down at the step before; nothing else adds
    or removes a predator or an emitter; each flag records whether its key
    is down, so a key that stays down does not fire again at the next
    step. *)
Theorem keys_add_once (random : nat -> R) (w : Sim.t) :
  Spec.fires 82 (Sim.g_rIsPressed w) w = false ->
  let w' := Sim.runSimulation random w in
  List.length (Flock.predators (Sim.g_flock w'))
  = (List.length (Flock.predators (Sim.g_flock w))
     + Spec.count (Spec.fires 80 (Sim.g_pIsPressed w) w))%nat
  /\ List.length (Flock.emitters (Sim.g_flock w'))
     = (List.length (Flock.emitters (Sim.g_flock w))
        + Spec.count (Spec.fires 75 (Sim.g_kIsPressed w) w)
        + Spec.count (Spec.fires 76 (Sim.g_lIsPressed w) w))%nat
  /\ Sim.g_keysDown w' = Sim.g_keysDown w
  /\ Sim.g_pIsPressed w' = Sim.isDown 80 (Sim.g_keysDown w)
  /\ Sim.g_kIsPressed w' = Sim.isDown 75 (Sim.g_keysDown w)
  /\ Sim.g_lIsPressed w' = Sim.isDown 76 (Sim.g_keysDown w)
  /\ Sim.g_bIsPressed w' = Sim.isDown 66 (Sim.g_keysDown w)
  /\ Sim.g_rIsPressed w' = Sim.isDown 82 (Sim.g_keysDown w)
  /\ Spec.fires 80 (Sim.g_pIsPressed w') w' = false
  /\ Spec.fires 75 (Sim.g_kIsPressed w') w' = false
  /\ Spec.fires 76 (Sim.g_lIsPressed w') w' = false
  /\ Spec.fires 66 (Sim.g_bIsPressed w') w' = false
  /\ Spec.fires 82 (Sim.g_rIsPressed w') w' = false.
Proof.
  apply runSimulation_keys.
Qed.

Lemma keys_add_once_witness :
  let w :=
    Sim.mk (Flock.mk [] [] []) None false [80%nat] false false false false
      false (Vector.mk 0 0) 0 in
  Spec.fires 82 (Sim.g_rIsPressed w) w = false
  /\ List.length
       (Flock.predators (Sim.g_flock (Sim.runSimulation (fun _ => 1 / 2) w)))
     = 1%nat
  /\ List.length
       (Flock.predators
          (Sim.g_flock
             (Sim.runSimulation (fun _ => 1 / 2)
                (Sim.runSimulation (fun _ => 1 / 2) w)))) = 1%nat.
Proof.
  cbv zeta.
  set (w := Sim.mk (Flock.mk [] [] []) None false [80%nat] false false false
              false false (Vector.mk 0 0) 0).
  assert (H : Spec.fires 82 (Sim.g_rIsPressed w) w = false) by reflexivity.
  destruct (keys_add_once (fun _ => 1 / 2) w H)
    as (Hp & _ & Hk & Hpp & _ & _ & _ & Hr & Hfp & _ & _ & _ & Hfr).
  split; [exact H |]. split; [exact Hp |].
  destruct (keys_add_once (fun _ => 1 / 2)
              (Sim.runSimulation (fun _ => 1 / 2) w) Hfr) as (Hp2 & _).
  rewrite Hp2, Hp, Hfp. reflexivity.
Defined.

(** X17: a step in which the key r fires leaves in [g_flock] the flock that
    [resetSim] made, untouched by the rest of that step: 50 biods inside the
    sandbox that head east and carry no influence, no emitter and no
    predator, not even one that the key p asked for in the same step; and
    the key does not fire again while it stays down. *)
Theorem reset_replaces_flock (random : nat -> R) (w : Sim.t) :
  (forall n, 0 <= random n < 1) ->
  Spec.fires 82 (Sim.g_rIsPressed w) w = true ->
  let w' := Sim.runSimulation random w in
  List.length (Flock.flock (Sim.g_flock w')) = 50%nat
  /\ Flock.emitters (Sim.g_flock w') = []
  /\ Flock.predators (Sim.g_flock w') = []
  /\ Forall Spec.fresh (Flock.flock (Sim.g_flock w'))
  /\ Spec.fires 82 (Sim.g_rIsPressed w') w' = false.
Proof.
  intros Hrand Hr w'.
  destruct (keys_spec random w) as ((U1 & U2 & _) & _).
  destruct (runSimulation_fields random w)
    as ([m Eflock] & Ekeys & _ & _ & _ & _ & Er).
  fold w' in Eflock, Ekeys, Er. clearbody w'.
  set (w4 := Sim.keyB random
               (Sim.keyL random (Sim.keyK random (Sim.keyP random w)))) in *.
  clearbody w4.
  assert (Hres : Sim.resets w4 = true).
  { unfold Sim.resets. rewrite U1, U2. exact Hr. }
  destruct (keyR_fires random w4 Hres) as (Rf & Rk & Rr).
  rewrite Hres, Rf in Eflock.
  pose proof (addBiods_fresh random Hrand 50 (Sim.draws w4)
                (Flock.mk [] [] []) (Forall_nil _)) as Hf.
  cbv zeta in Hf. rewrite <- Eflock in Hf.
  destruct Hf as (H1 & H2 & H3 & H4 & _).
  split; [exact H2 |]. split; [exact H3 |]. split; [exact H4 |].
  split; [exact H1 |].
  unfold Spec.fires. rewrite Er, Rr. apply andb_false_r.
Qed.

Lemma reset_replaces_flock_witness :
  let w :=
    Sim.mk (Flock.mk [] [] []) None false [82%nat; 80%nat] false false false
      false false (Vector.mk 0 0) 0 in
  (forall n : nat, 0 <= (fun _ : nat => 1 / 2) n < 1)
  /\ Spec.fires 82 (Sim.g_rIsPressed w) w = true
  /\ Flock.predators (Sim.g_flock (Sim.runSimulation (fun _ => 1 / 2) w)) = [].
Proof.
  cbv zeta.
  assert (H : forall n : nat, 0 <= (fun _ : nat => 1 / 2) n < 1)
    by (intros n; lra).
  split; [exact H |]. split; [reflexivity |].
  destruct (reset_replaces_flock (fun _ => 1 / 2)
              (Sim.mk (Flock.mk [] [] []) None false [82%nat; 80%nat] false
                 false false false false (Vector.mk 0 0) 0) H eq_refl)
    as (_ & _ & Hp & _).
  exact Hp.
Defined.

Section Presses.

Lemma isDown_keydown (code other : nat) (w : Sim.t) :
  Sim.isDown other (Sim.g_keysDown (Sim.keydown code w))
  = Nat.eqb other code || Sim.isDown other (Sim.g_keysDown w).
Proof. reflexivity. Qed.

Lemma isDown_keyup (code other : nat) (w : Sim.t) :
  Sim.isDown other (Sim.g_keysDown (Sim.keyup code w))
  = negb (Nat.eqb other code) && Sim.isDown other (Sim.g_keysDown w).
Proof.
  unfold Sim.keyup, Sim.isDown. cbn [Sim.g_keysDown].
  induction (Sim.g_keysDown w) as [| k rest IH]; simpl.
  - rewrite andb_false_r. reflexivity.
  - destruct (Nat.eqb_spec code k) as [E | N]; simpl.
    + subst k. rewrite IH.
      destruct (Nat.eqb_spec other code) as [E' | N']; simpl; reflexivity.
    + rewrite IH.
      destruct (Nat.eqb_spec other k) as [E' | N']; simpl.
      * subst k. destruct (Nat.eqb_spec other code) as [E'' | N''];
          [congruence | reflexivity].
      * reflexivity.
Qed.

End Presses.

Section Scenario.

Variable random : nat -> R.
Variables w pressed held released again : Sim.t.
Hypothesis r_up : Sim.isDown 82 (Sim.g_keysDown w) = false.
Hypothesis flag_down : Sim.g_pIsPressed w = false.
Hypothesis press : pressed = Sim.runSimulation random (Sim.keydown 80 w).
Hypothesis hold : held = Sim.runSimulation random (Sim.keydown 80 pressed).
Hypothesis release : released = Sim.runSimulation random (Sim.keyup 80 held).
Hypothesis press_again :
  again = Sim.runSimulation random (Sim.keydown 80 (Sim.keydown 80 released)).

(** One step with the key r up. *)
Lemma quiet_step (v v' : Sim.t) :
  v' = Sim.runSimulation random v ->
  Sim.isDown 82 (Sim.g_keysDown v) = false ->
  List.length (Flock.predators (Sim.g_flock v'))
  = (List.length (Flock.predators (Sim.g_flock v))
     + Spec.count (Sim.isDown 80 (Sim.g_keysDown v)
                   && negb (Sim.g_pIsPressed v)))%nat
  /\ Sim.g_keysDown v' = Sim.g_keysDown v
  /\ Sim.g_pIsPressed v' = Sim.isDown 80 (Sim.g_keysDown v).
Proof.
  intros E Hv. subst v'.
  assert (Hf : Spec.fires 82 (Sim.g_rIsPressed v) v = false)
    by (unfold Spec.fires; rewrite Hv; reflexivity).
  destruct (runSimulation_keys random v Hf) as (H1 & _ & H3 & H4 & _).
  split; [exact H1 |]. split; [exact H3 | exact H4].
Qed.

Lemma keydown_fields (code : nat) (v : Sim.t) :
  Sim.g_flock (Sim.keydown code v) = Sim.g_flock v
  /\ Sim.g_pIsPressed (Sim.keydown code v) = Sim.g_pIsPressed v.
Proof. split; reflexivity. Qed.

Lemma keyup_fields (code : nat) (v : Sim.t) :
  Sim.g_flock (Sim.keyup code v) = Sim.g_flock v
  /\ Sim.g_pIsPressed (Sim.keyup code v) = Sim.g_pIsPressed v.
Proof. split; reflexivity. Qed.

Lemma press_scenario :
  List.length (Flock.predators (Sim.g_flock pressed))
  = (List.length (Flock.predators (Sim.g_flock w)) + 1)%nat
  /\ List.length (Flock.predators (Sim.g_flock held))
     = (List.length (Flock.predators (Sim.g_flock w)) + 1)%nat
  /\ List.length (Flock.predators (Sim.g_flock released))
     = (List.length (Flock.predators (Sim.g_flock w)) + 1)%nat
  /\ List.length (Flock.predators (Sim.g_flock again))
     = (List.length (Flock.predators (Sim.g_flock w)) + 2)%nat.
Proof.
  destruct (quiet_step (Sim.keydown 80 w) pressed press) as (C1 & K1 & F1).
  { rewrite isDown_keydown, r_up. reflexivity. }
  destruct (quiet_step (Sim.keydown 80 pressed) held hold) as (C2 & K2 & F2).
  { rewrite isDown_keydown, K1, isDown_keydown, r_up. reflexivity. }
  destruct (quiet_step (Sim.keyup 80 held) released release)
    as (C3 & K3 & F3).
  { rewrite isDown_keyup, K2, isDown_keydown, K1, isDown_keydown, r_up.
    reflexivity. }
  destruct (quiet_step (Sim.keydown 80 (Sim.keydown 80 released)) again
              press_again) as (C4 & K4 & F4).
  { rewrite !isDown_keydown, K3, isDown_keyup, K2, isDown_keydown, K1,
      isDown_keydown, r_up. reflexivity. }
  destruct (keydown_fields 80 w) as [G1 P1].
  destruct (keydown_fields 80 pressed) as [G2 P2].
  destruct (keyup_fields 80 held) as [G3 P3].
  destruct (keydown_fields 80 (Sim.keydown 80 released)) as [G4 P4].
  destruct (keydown_fields 80 released) as [G5 P5].
  rewrite G1, P1, isDown_keydown, flag_down in C1.
  rewrite G2, P2, isDown_keydown, F1, isDown_keydown in C2.
  rewrite G3, P3, isDown_keyup in C3.
  rewrite G4, G5, P4, P5, isDown_keydown, F3, isDown_keyup in C4.
  cbn [Nat.eqb orb negb andb Spec.count] in C1, C2, C3, C4.
  repeat split; lia.
Qed.

End Scenario.

(** X18: the key handlers and the steps together: from a state in which the
    key r is up and the flag of the key p is not set, pressing p adds one
    predator at the next step and none while the key is held; after the key
    is released, pressing it again adds a second one, however many key-down
    events the held key repeats. *)
Theorem each_press_adds_one_predator (random : nat -> R) (w : Sim.t) :
  Sim.isDown 82 (Sim.g_keysDown w) = false ->
  Sim.g_pIsPressed w = false ->
  let n := List.length (Flock.predators (Sim.g_flock w)) in
  let pressed := Sim.runSimulation random (Sim.keydown 80 w) in
  let held := Sim.runSimulation random (Sim.keydown 80 pressed) in
  let released := Sim.runSimulation random (Sim.keyup 80 held) in
  let again :=
    Sim.runSimulation random (Sim.keydown 80 (Sim.keydown 80 released)) in
  List.length (Flock.predators (Sim.g_flock pressed)) = (n + 1)%nat
  /\ List.length (Flock.predators (Sim.g_flock held)) = (n + 1)%nat
  /\ List.length (Flock.predators (Sim.g_flock released)) = (n + 1)%nat
  /\ List.length (Flock.predators (Sim.g_flock again)) = (n + 2)%nat.
Proof.
  intros Hr Hflag n pressed held released again.
  exact (press_scenario random w pressed held released again Hr Hflag
           eq_refl eq_refl eq_refl eq_refl).
Qed.

Lemma each_press_adds_one_predator_witness :
  let w :=
    Sim.mk (Flock.mk [] [] []) None false [] false false false false false
      (Vector.mk 0 0) 0 in
  Sim.isDown 82 (Sim.g_keysDown w) = false
  /\ Sim.g_pIsPressed w = false
  /\ List.length
       (Flock.predators
          (Sim.g_flock (Sim.runSimulation (fun _ => 1 / 2) (Sim.keydown 80 w))))
     = 1%nat.
Proof.
  cbv zeta.
  split; [reflexivity |]. split; [reflexivity |].
  exact (proj1 (each_press_adds_one_predator (fun _ => 1 / 2)
                  (Sim.mk (Flock.mk [] [] []) None false [] false false false
                     false false (Vector.mk 0 0) 0) eq_refl eq_refl)).
Defined.
